(** * Cat Jump: the physics, upgrade, generator, difficulty and high-score core

    A shallow embedding of [CatJump.py].  Python floats are IEEE binary64
    numbers, modelled by Rocq's primitive floats; Python ints are [Z];
    the [active_upgrades] dict is a [gmap string Z]; sprite groups are
    lists in insertion order.  Rendering (images, fonts, blits) is left out. *)

From Stdlib Require Import ZArith QArith Floats Lia.
From stdpp Require Import gmap strings list fin_maps.

Set Warnings "-inexact-float,-register-all".
Open Scope Z_scope.

(** ** Python numbers *)

(** The int nearest to a float conversion: round to nearest, ties to even.
    Exact for every int below [2^53], hence for every pygame coordinate. *)
Definition Z2F (n : Z) : float := SF2Prim (binary_normalize prec emax n 0 false).

(** First magnitude that no longer rounds to a finite binary64 value. *)
Definition FLOAT_OVERFLOW : Z := 2 ^ 1024 - 2 ^ 970.

(** [float(n)] as Python does it implicitly in [n * 0.05]: [None] stands for
    [OverflowError: int too large to convert to float]. *)
Definition float_of_int (n : Z) : option float :=
  if Z.abs n <? FLOAT_OVERFLOW then Some (Z2F n) else None.

(** [int(f)]: truncation toward zero; [None] stands for the [OverflowError] or
    [ValueError] Python raises on an infinity or a NaN. *)
Definition int_of_float (f : float) : option Z :=
  match Prim2SF f with
  | S754_zero _ => Some 0
  | S754_finite s m e =>
      let a := if 0 <=? e then Z.pos m * 2 ^ e else Z.pos m / 2 ^ (- e) in
      Some (if s then - a else a)
  | S754_infinity _ | S754_nan => None
  end.

(** The C int range of a pygame Rect field. *)
Definition INT_MIN : Z := - 2 ^ 31.
Definition INT_MAX : Z := 2 ^ 31 - 1.

(** The integer nearest to a float, a tie going away from zero; [None] on an
    infinity or a NaN. *)
Definition round_half_away (f : float) : option Z :=
  match Prim2SF f with
  | S754_zero _ => Some 0
  | S754_finite s m e =>
      let a := if 0 <=? e then Z.pos m * 2 ^ e
               else (2 * Z.pos m + 2 ^ (- e)) / (2 * 2 ^ (- e)) in
      Some (if s then - a else a)
  | S754_infinity _ | S754_nan => None
  end.

(** What pygame makes of a float assigned to a Rect attribute: the nearest
    int.  [None] stands for the [TypeError: invalid rect assignment] it raises
    when the float is not finite or its int does not fit a C int. *)
Definition to_rect_int (f : float) : option Z :=
  z ← round_half_away f;
  if (INT_MIN <=? z) && (z <=? INT_MAX) then Some z else None.

(** The coordinate a Rect holds after the assignment.  Where the assignment
    raises, the program stops there; the model writes 0 and goes on, and the
    properties of landings are stated for the assignments that succeed. *)
Definition rect_int (f : float) : Z := default 0 (to_rect_int f).

(** [max(a, b)] on two arguments: the first one unless the second is greater. *)
Definition py_max (a b : float) : float := if (a <? b)%float then b else a.

(** ** Game settings *)

Module GameSettings.
Definition SCREEN_WIDTH : Z := 1024.
Definition SCREEN_HEIGHT : Z := 768.
Definition PLAYER_WIDTH : Z := 90.
Definition PLAYER_HEIGHT : Z := 90.
Definition PLAYER_SPEED : Z := 7.
Definition GRAVITY : float := 0.4%float.
Definition PLAYER_JUMP : Z := -19.
Definition SCORE_PER_DIFFICULTY : Z := 500.
End GameSettings.

(** ** pygame.Rect *)

Module Rect.
Record t := mk { x : Z; y : Z; w : Z; h : Z }.

Definition left (r : t) : Z := x r.
Definition top (r : t) : Z := y r.
Definition right (r : t) : Z := x r + w r.
Definition bottom (r : t) : Z := y r + h r.

Definition set_x (v : Z) (r : t) : t := mk v (y r) (w r) (h r).
Definition set_y (v : Z) (r : t) : t := mk (x r) v (w r) (h r).
Definition set_left (v : Z) (r : t) : t := set_x v r.
Definition set_right (v : Z) (r : t) : t := set_x (v - w r) r.
Definition set_bottom (v : Z) (r : t) : t := set_y (v - h r) r.

(** [Rect.colliderect]: rectangles of zero width or height collide with
    nothing; otherwise the interiors must overlap on both axes. *)
Definition colliderect (a b : t) : bool :=
  if (w a =? 0) || (h a =? 0) || (w b =? 0) || (h b =? 0) then false
  else (Z.min (x a) (x a + w a) <? Z.max (x b) (x b + w b))
    && (Z.min (y a) (y a + h a) <? Z.max (y b) (y b + h b))
    && (Z.min (x b) (x b + w b) <? Z.max (x a) (x a + w a))
    && (Z.min (y b) (y b + h b) <? Z.max (y a) (y a + h a)).
End Rect.

(** ** Platform *)

Module Platform.
Record t := mk {
  rect : Rect.t;
  breakable : bool;
  deadly : bool;
  will_break : bool
}.

(** [Platform(x, y, width=220, height=200, breakable, deadly)]: the
    collision rect is the thin band at the top, 15 pixels high. *)
Definition new (x y width : Z) (breakable deadly : bool) : t :=
  mk (Rect.mk x y width 15) breakable deadly false.

Definition set_will_break (b : bool) (p : t) : t :=
  mk (rect p) (breakable p) (deadly p) b.
End Platform.

(** ** Player *)

(** The held-keys snapshot, restricted to the four keys the game reads. *)
Record Keys := { K_LEFT : bool; K_a : bool; K_RIGHT : bool; K_d : bool }.

(** [name in d] for a dict. *)
Definition contains (name : string) (d : gmap string Z) : bool :=
  if d !! name is Some _ then true else false.

Module Player.
Import GameSettings.

Record t := mk {
  rect : Rect.t;
  vel_x : Z;
  vel_y : float;
  on_ground : bool;
  fall_time : Z;
  active_upgrades : gmap string Z;
  shield_active : bool
}.

Definition new (x y : Z) : t :=
  mk (Rect.mk x y PLAYER_WIDTH PLAYER_HEIGHT) 0 0%float true 0 ∅ false.

Definition set_rect (r : Rect.t) (s : t) : t :=
  mk r (vel_x s) (vel_y s) (on_ground s) (fall_time s) (active_upgrades s) (shield_active s).
Definition set_vel_x (v : Z) (s : t) : t :=
  mk (rect s) v (vel_y s) (on_ground s) (fall_time s) (active_upgrades s) (shield_active s).
Definition set_vel_y (v : float) (s : t) : t :=
  mk (rect s) (vel_x s) v (on_ground s) (fall_time s) (active_upgrades s) (shield_active s).
Definition set_on_ground (b : bool) (s : t) : t :=
  mk (rect s) (vel_x s) (vel_y s) b (fall_time s) (active_upgrades s) (shield_active s).
Definition set_fall_time (n : Z) (s : t) : t :=
  mk (rect s) (vel_x s) (vel_y s) (on_ground s) n (active_upgrades s) (shield_active s).
Definition set_active_upgrades (d : gmap string Z) (s : t) : t :=
  mk (rect s) (vel_x s) (vel_y s) (on_ground s) (fall_time s) d (shield_active s).
Definition set_shield_active (b : bool) (s : t) : t :=
  mk (rect s) (vel_x s) (vel_y s) (on_ground s) (fall_time s) (active_upgrades s) b.

(** [handle_input]: reset, then the left test, then the right test. *)
Definition handle_input (keys : Keys) (self : t) : t :=
  let self := set_vel_x 0 self in
  let self := if K_LEFT keys || K_a keys then set_vel_x (- PLAYER_SPEED) self else self in
  if K_RIGHT keys || K_d keys then set_vel_x PLAYER_SPEED self else self.

(** [jump]: the impulse, and the fall timer back to 0. *)
Definition jump (jump_mult : float) (self : t) : t :=
  set_fall_time 0 (set_vel_y (Z2F PLAYER_JUMP * jump_mult)%float self).

(** [int(PLAYER_SPEED * 1.5)] and [int(-PLAYER_SPEED * 1.5)]. *)
Definition boosted_speed (sign : Z) : Z :=
  default 0 (int_of_float (Z2F (sign * PLAYER_SPEED) * 1.5)%float).

(** The speed modifier block of [update]. *)
Definition speed_boost (self : t) : t :=
  if contains "Speed Boost" (active_upgrades self) then
    if 0 <? vel_x self then set_vel_x (boosted_speed 1) self
    else if vel_x self <? 0 then set_vel_x (boosted_speed (-1)) self
    else self
  else self.

(** The timer block of [update]: every entry loses one tick, the names whose
    value is then [<= 0] are collected, and those entries are deleted. *)
Definition decrement_timers (d : gmap string Z) : gmap string Z :=
  (λ remaining, remaining - 1) <$> d.
Definition expired (d : gmap string Z) : list string :=
  (map_to_list (filter (λ kv, kv.2 ≤ 0) d)).*1.
Definition tick_upgrades (d : gmap string Z) : gmap string Z :=
  let d := decrement_timers d in
  foldl (λ acc name, delete name acc) d (expired d).

(** Gravity and the position update; [on_ground] is cleared before the
    collision test.  [rect.x += vel_x] stays among ints; [rect.y += vel_y]
    assigns the float [rect.y + vel_y], which the Rect rounds. *)
Definition integrate (gravity_mult : float) (self : t) : t :=
  let self := set_vel_y (vel_y self + GRAVITY * gravity_mult)%float self in
  let self := set_rect (Rect.set_x (Rect.x (rect self) + vel_x self) (rect self)) self in
  let self :=
    set_rect (Rect.set_y (rect_int (Z2F (Rect.y (rect self)) + vel_y self)%float) (rect self)) self in
  set_on_ground false self.

(** [pygame.sprite.spritecollide(self, platforms, False)]: the colliding
    sprites in group order, each with its position in the group, which
    stands for the identity of the shared sprite object. *)
Definition spritecollide (self : t) (platforms : list Platform.t) : list (nat * Platform.t) :=
  filter (λ ip, Rect.colliderect (rect self) (Platform.rect ip.2) = true) (imap pair platforms).

(** The three statements every landing branch repeats. *)
Definition land (platform : Platform.t) (jump_mult : float) (self : t) : t :=
  let self :=
    set_rect (Rect.set_bottom (Rect.top (Platform.rect platform)) (rect self)) self in
  set_on_ground true (jump jump_mult self).

Inductive resolution :=
| Died
| Landed (self : t) (platforms : list Platform.t)
| Missed.

(** The [for platform in hits] loop. *)
Fixpoint resolve (self : t) (jump_mult : float) (platforms : list Platform.t)
    (hits : list (nat * Platform.t)) : resolution :=
  match hits with
  | [] => Missed
  | (i, platform) :: hits =>
      if Rect.bottom (rect self) <=? Rect.bottom (Platform.rect platform) then
        if Platform.deadly platform then
          if shield_active self then
            Landed (land platform jump_mult (set_shield_active false self)) platforms
          else if contains "Invincibility" (active_upgrades self) then
            Landed (land platform jump_mult self) platforms
          else Died
        else
          Landed (land platform jump_mult self)
            (<[i := Platform.set_will_break (Platform.breakable platform) platform]> platforms)
      else resolve self jump_mult platforms hits
  end.

(** Horizontal clamp to the screen. *)
Definition clamp (self : t) : t :=
  let self :=
    if Rect.left (rect self) <? 0 then set_rect (Rect.set_left 0 (rect self)) self else self in
  if SCREEN_WIDTH <? Rect.right (rect self)
  then set_rect (Rect.set_right SCREEN_WIDTH (rect self)) self else self.

Definition track_fall (self : t) : t :=
  if on_ground self then self else set_fall_time (fall_time self + 1) self.

(** The two death tests that end [update]. *)
Definition fell (self : t) : bool :=
  if 210 <? fall_time self then true
  else if SCREEN_HEIGHT + 200 <? Rect.top (rect self) then true
  else false.

(** What follows the collision block: clamp, fall timer, death tests. *)
Definition finish (self : t) (platforms : list Platform.t) : t * list Platform.t * bool :=
  let self := track_fall (clamp self) in
  (self, platforms, fell self).

Definition effective_gravity (self : t) (gravity_mult : float) : float :=
  if contains "Gravity Reduction" (active_upgrades self)
  then (gravity_mult * 0.5)%float else gravity_mult.

Definition effective_jump (self : t) (jump_mult : float) : float :=
  if contains "Jump Boost" (active_upgrades self)
  then (jump_mult * 1.3)%float else jump_mult.

(** The player as the collision block of [update] finds it. *)
Definition before_collision (self : t) (gravity_mult : float) : t :=
  let gravity_mult := effective_gravity self gravity_mult in
  let self := speed_boost self in
  let self := set_active_upgrades (tick_upgrades (active_upgrades self)) self in
  integrate gravity_mult self.

(** [update(platforms, gravity_mult, jump_mult)]: the new player, the
    platforms (whose [will_break] it may set) and the returned flag. *)
Definition update (self : t) (platforms : list Platform.t) (gravity_mult jump_mult : float)
    : t * list Platform.t * bool :=
  let jump_mult := effective_jump self jump_mult in
  let self := before_collision self gravity_mult in
  if (0 <? vel_y self)%float then
    match resolve self jump_mult platforms (spritecollide self platforms) with
    | Died => (self, platforms, true)
    | Landed self platforms => finish self platforms
    | Missed => finish self platforms
    end
  else finish self platforms.
End Player.

(** ** Difficulty scaling *)

(** [get_difficulty_modifiers(score)]; [//] is floor division, and the level is
    converted to a float by each of the three products. *)
Definition get_difficulty_modifiers (score : Z) : option (float * float * float * Z) :=
  let difficulty_level := score / GameSettings.SCORE_PER_DIFFICULTY in
  level ← float_of_int difficulty_level;
  let gravity_mult := (1.0 + level * 0.05)%float in
  let jump_mult := py_max 0.85 (1.0 - level * 0.02)%float in
  let gap_mult := (1.0 + level * 0.03)%float in
  Some (gravity_mult, jump_mult, gap_mult, difficulty_level).

(** ** The random module

    A run of the program is described by the answers the [random] module gave,
    in call order.  A call that finds no answer left, or an answer the call
    cannot give, has no result: the tape does not describe that run. *)

Inductive sample :=
| RandInt (n : Z)
| RandFloat (f : float).

Definition as_randint (a b : Z) (s : sample) : option Z :=
  match s with
  | RandInt n => if (a <=? n) && (n <=? b) then Some n else None
  | RandFloat _ => None
  end.

Definition as_random (s : sample) : option float :=
  match s with
  | RandFloat f => if (0 <=? f)%float && (f <? 1)%float then Some f else None
  | RandInt _ => None
  end.

(** [random.randint(a, b)], both ends included. *)
Definition randint (a b : Z) (tape : list sample) : option (Z * list sample) :=
  match tape with
  | s :: tape => n ← as_randint a b s; Some (n, tape)
  | [] => None
  end.

(** [random.random()], in [[0, 1)]. *)
Definition random (tape : list sample) : option (float * list sample) :=
  match tape with
  | s :: tape => f ← as_random s; Some (f, tape)
  | [] => None
  end.

(** [random.choice(seq)]: an index below the length. *)
Definition choice {A} (seq : list A) (tape : list sample) : option (A * list sample) :=
  '(i, tape) ← randint 0 (Z.of_nat (length seq) - 1) tape;
  a ← seq !! Z.to_nat i;
  Some (a, tape).

(** ** Orb *)

Module Orb.
Record upgrade := { name : string; duration : Z }.

Definition UPGRADES : list upgrade :=
  [ {| name := "Jump Boost"; duration := 900 |};
    {| name := "Speed Boost"; duration := 900 |};
    {| name := "Invincibility"; duration := 900 |};
    {| name := "Gravity Reduction"; duration := 900 |};
    {| name := "Shield"; duration := 0 |} ].

Record t := mk { upgrade_of : upgrade; rect : Rect.t }.

Definition size : Z := 20.

(** [Orb(x, y)]: a random upgrade, centred on the platform and floating
    above it. *)
Definition new (x y : Z) (tape : list sample) : option (t * list sample) :=
  '(u, tape) ← choice UPGRADES tape;
  Some (mk u (Rect.mk (x + 100) (y - 50) (size * 2) (size * 2)), tape).
End Orb.

(** ** The generator and the orb pickup of [main] *)

Module Main.
Import GameSettings.

Definition num_platforms : nat := 13.
Definition min_gap : Z := 60.
Definition max_gap : Z := 100.
Definition min_horizontal_gap : Z := 200.

(** The variables of [main] the generator reads and writes. *)
Record gen := mk {
  last_x : Z;
  platform_height : Z;
  highest_platform_y : Z;
  platforms : list Platform.t;
  orbs : list Orb.t
}.

Definition ground : Platform.t :=
  Platform.new 0 (SCREEN_HEIGHT - 100) SCREEN_WIDTH false false.

(** The state before the first platform is generated. *)
Definition start : gen :=
  mk (SCREEN_WIDTH / 2) (SCREEN_HEIGHT - 200) (SCREEN_HEIGHT - 200) [ground] [].

(** [while abs(x - last_x) < min_horizontal_gap: x = randint(0, W - 120)];
    every turn of the loop takes one answer from the tape. *)
Fixpoint resample (last_x x : Z) (tape : list sample) : option (Z * list sample) :=
  if Z.abs (x - last_x) <? min_horizontal_gap then
    match tape with
    | s :: tape => x ← as_randint 0 (SCREEN_WIDTH - 120) s; resample last_x x tape
    | [] => None
    end
  else Some (x, tape).

Definition pick_x (last_x : Z) (tape : list sample) : option (Z * list sample) :=
  '(x, tape) ← randint 0 (SCREEN_WIDTH - 120) tape;
  resample last_x x tape.

(** [if random.random() < 0.1 and not is_deadly: orbs.add(Orb(x, y))] *)
Definition maybe_orb (x y : Z) (is_deadly : bool) (orbs : list Orb.t) (tape : list sample)
    : option (list Orb.t * list sample) :=
  '(r, tape) ← random tape;
  if (r <? 0.1)%float && negb is_deadly then
    '(orb, tape) ← Orb.new x y tape; Some (orbs ++ [orb], tape)
  else Some (orbs, tape).

(** One turn of the initial [for _ in range(num_platforms)] loop. *)
Definition seed_one (st : gen) (tape : list sample) : option (gen * list sample) :=
  '(x, tape) ← pick_x (last_x st) tape;
  let last_x := x in
  '(gap, tape) ← randint min_gap max_gap tape;
  let platform_height := platform_height st - gap in
  let platform_height := if platform_height <? 100 then 100 else platform_height in
  let highest_platform_y := platform_height in
  '(r, tape) ← random tape;
  let is_breakable := (r <? 0.3)%float in
  let is_deadly := false in
  let platform := Platform.new x platform_height 220 is_breakable is_deadly in
  '(orbs, tape) ← maybe_orb x platform_height is_deadly (orbs st) tape;
  Some (mk last_x platform_height highest_platform_y (platforms st ++ [platform]) orbs, tape).

(** One turn of the [for _ in range(5)] loop of the main loop. *)
Definition extend_one (gap_mult : float) (current_difficulty : Z) (st : gen)
    (tape : list sample) : option (gen * list sample) :=
  '(x, tape) ← pick_x (last_x st) tape;
  let last_x := x in
  '(r, tape) ← randint 0 (max_gap - min_gap) tape;
  adjusted_gap ← int_of_float (Z2F min_gap + Z2F r * gap_mult)%float;
  let highest_platform_y := highest_platform_y st - adjusted_gap in
  '(r, tape) ← random tape;
  let is_breakable := (r <? 0.3)%float in
  '(is_deadly, tape) ←
    (if 3 <=? current_difficulty
     then '(r, tape) ← random tape; Some ((r <? 0.08)%float, tape)
     else Some (false, tape));
  let platform := Platform.new x highest_platform_y 220 is_breakable is_deadly in
  '(orbs, tape) ← maybe_orb x highest_platform_y is_deadly (orbs st) tape;
  Some (mk last_x (platform_height st) highest_platform_y (platforms st ++ [platform]) orbs,
        tape).

(** A loop body run [n] times, threading the state and the tape. *)
Fixpoint repeat_n (n : nat) (body : gen → list sample → option (gen * list sample))
    (st : gen) (tape : list sample) : option (gen * list sample) :=
  match n with
  | O => Some (st, tape)
  | S n => '(st, tape) ← body st tape; repeat_n n body st tape
  end.

(** The initial seeding. *)
Definition seed (tape : list sample) : option (gen * list sample) :=
  repeat_n num_platforms seed_one start tape.

(** One dynamic batch. *)
Definition extend (gap_mult : float) (current_difficulty : Z) (st : gen) (tape : list sample)
    : option (gen * list sample) :=
  repeat_n 5 (extend_one gap_mult current_difficulty) st tape.

(** The seeding followed by one batch per entry of [batches], each with the
    gap multiplier and the level of the tick that triggered it. *)
Fixpoint extend_all (batches : list (float * Z)) (st : gen) (tape : list sample)
    : option (gen * list sample) :=
  match batches with
  | [] => Some (st, tape)
  | (gap_mult, current_difficulty) :: batches =>
      '(st, tape) ← extend gap_mult current_difficulty st tape;
      extend_all batches st tape
  end.

Definition generate (batches : list (float * Z)) (tape : list sample)
    : option (gen * list sample) :=
  '(st, tape) ← seed tape; extend_all batches st tape.

(** The platforms the generator made, oldest first (the ground is not one). *)
Definition generated (st : gen) : list Platform.t := drop 1 (platforms st).

(** The body of [for orb in collected_orbs], for the player. *)
Definition collect (orb : Orb.t) (player : Player.t) : Player.t :=
  let u := Orb.upgrade_of orb in
  if String.eqb (Orb.name u) "Shield" then Player.set_shield_active true player
  else Player.set_active_upgrades
         (<[Orb.name u := Orb.duration u]> (Player.active_upgrades player)) player.
End Main.


(** ** High-score persistence

    The [json] and file layers belong to Python.  The store is modelled by
    what they make of it: the file is missing, or it holds bytes that are
    not text, or text that [json.load] rejects, or text that [json.load]
    decodes to a value; each call is also told whether the operating system
    lets it through. *)

(** The values [json.load] can return. *)
Inductive value :=
| PyNone
| PyBool (b : bool)
| PyInt (n : Z)
| PyFloat (f : float)
| PyStr (s : string)
| PyList (items : list value)
| PyDict (items : list (string * value)).

Inductive exception := IOError | JSONDecodeError | UnicodeDecodeError | AttributeError.

Inductive outcome (A : Type) :=
| Return (a : A)
| Raise (e : exception).
Arguments Return {A} a.
Arguments Raise {A} e.

Definition bind {A B} (m : outcome A) (k : A → outcome B) : outcome B :=
  match m with
  | Return a => k a
  | Raise e => Raise e
  end.

(** [try: body / except handled: pass], yielding [None] once an exception of
    [handled] has been swallowed. *)
Definition try_except {A} (handled : exception → bool) (body : outcome A) : outcome (option A) :=
  match body with
  | Return a => Return (Some a)
  | Raise e => if handled e then Return None else Raise e
  end.

(** What the bytes of the file are to [json.load]: not text in the
    encoding the file is opened with, text that is not JSON, or the text of a
    JSON value. *)
Inductive content :=
| Undecodable
| Garbled
| Json (data : value).

(** [high_score.json]: missing, or present with some content. *)
Definition file := option content.

Inductive read_io := ReadWorks | ReadFails.
Inductive write_io := WriteWorks | OpenFails | DumpFails.

(** [open(high_score_file, 'r')] followed by [json.load(f)]: the open can
    fail, the read can meet bytes that are not text, the parse can fail. *)
Definition json_load (io : read_io) (c : content) : outcome value :=
  match io with
  | ReadFails => Raise IOError
  | ReadWorks =>
      match c with
      | Undecodable => Raise UnicodeDecodeError
      | Garbled => Raise JSONDecodeError
      | Json data => Return data
      end
  end.

Fixpoint dict_lookup (key : string) (items : list (string * value)) : option value :=
  match items with
  | [] => None
  | (k, v) :: items => if String.eqb k key then Some v else dict_lookup key items
  end.

(** [data.get(key, default)]: only a dict has the method. *)
Definition get (data : value) (key : string) (default : value) : outcome value :=
  match data with
  | PyDict items => Return (from_option id default (dict_lookup key items))
  | _ => Raise AttributeError
  end.

(** [load_high_score()].  The body of the [try] either returns a value or
    falls through (no file); the handler swallows the two listed exceptions;
    whatever did not return ends at [return 0]. *)
Definition load_high_score (io : read_io) (high_score_file : file) : outcome value :=
  let body : outcome (option value) :=
    match high_score_file with
    | Some c =>
        bind (json_load io c) (λ data,
        bind (get data "high_score" (PyInt 0)) (λ v, Return (Some v)))
    | None => Return None
    end in
  bind (try_except (λ e, match e with JSONDecodeError | IOError => true | _ => false end) body)
    (λ r, match r with
          | Some (Some v) => Return v
          | _ => Return (PyInt 0)
          end).

(** [open(high_score_file, 'w')] followed by [json.dump(...)]: a failed open
    leaves the file as it was, a failed dump leaves a truncated file. *)
Definition json_dump (io : write_io) (data : value) (high_score_file : file)
    : file * outcome unit :=
  match io with
  | WriteWorks => (Some (Json data), Return tt)
  | OpenFails => (high_score_file, Raise IOError)
  | DumpFails => (Some Garbled, Raise IOError)
  end.

(** [save_high_score(score)]: the file afterwards, and how the call ended. *)
Definition save_high_score (io : write_io) (score : Z) (high_score_file : file)
    : file * outcome unit :=
  let '(high_score_file, body) :=
    json_dump io (PyDict [("high_score"%string, PyInt score)]) high_score_file in
  (high_score_file,
   bind (try_except (λ e, match e with IOError => true | _ => false end) body)
     (λ _, Return tt)).

(** ** Notions the properties are stated with *)

(** The test a platform of [hits] must pass to be landed on: it collides with
    the player and the player's bottom is not below the platform's. *)
Definition lands (self : Player.t) (platform : Platform.t) : Prop :=
  Rect.colliderect (Player.rect self) (Platform.rect platform) = true
  ∧ Rect.bottom (Player.rect self) ≤ Rect.bottom (Platform.rect platform).

(** [platform], at position [i] of the group, is the first one that passes. *)
Definition lands_on (self : Player.t) (platforms : list Platform.t) (i : nat)
    (platform : Platform.t) : Prop :=
  platforms !! i = Some platform
  ∧ lands self platform
  ∧ ∀ j q, (j < i)%nat → platforms !! j = Some q → ¬ lands self q.

(** [update] gets past [self.rect.y += self.vel_y]: the float assigned, the
    old y plus the speed after gravity, is one a Rect takes.  Otherwise the
    call ends there with a TypeError. *)
Definition completes (self : Player.t) (gravity_mult : float) : Prop :=
  is_Some (to_rect_int (Z2F (Rect.y (Player.rect self))
                        + Player.vel_y (Player.before_collision self gravity_mult))%float).

(** A platform with the same rect and neither flag: a Normal platform. *)
Definition normal (platform : Platform.t) : Platform.t :=
  Platform.mk (Platform.rect platform) false false (Platform.will_break platform).

(** The player states a run can show between two statements of the main
    loop: the new player, then any input, update and orb pickup. *)
Inductive reachable : Player.t → Prop :=
| reach_new x y : reachable (Player.new x y)
| reach_input keys player :
    reachable player → reachable (Player.handle_input keys player)
| reach_update player platforms gravity_mult jump_mult :
    reachable player →
    reachable (Player.update player platforms gravity_mult jump_mult).1.1
| reach_collect x y tape orb rest player :
    reachable player → Orb.new x y tape = Some (orb, rest) →
    reachable (Main.collect orb player).

(** The fields the collision block of [update] and what follows it never
    write. *)
Definition untouched (a b : Player.t) : Prop :=
  Player.vel_x b = Player.vel_x a ∧ Player.active_upgrades b = Player.active_upgrades a.

(** The raw input direction: the sign [handle_input] gives the velocity. *)
Definition direction (keys : Keys) : Z :=
  if K_RIGHT keys || K_d keys then 1 else if K_LEFT keys || K_a keys then -1 else 0.

(** The x positions of the generated platforms, oldest first. *)
Definition generated_xs (st : Main.gen) : list Z :=
  (λ p, Rect.x (Platform.rect p)) <$> Main.generated st.

(** ** Sample states and tapes *)

Definition held (l r : bool) : Keys := {| K_LEFT := l; K_a := false; K_RIGHT := r; K_d := false |}.

Definition with_upgrade (name : string) (remaining : Z) (p : Player.t) : Player.t :=
  Player.set_active_upgrades (<[name := remaining]> (Player.active_upgrades p)) p.

(** A player falling at 5.2 pixels per tick above a platform at (450, 500).
    After gravity the speed is 5.6 and the float assigned to [rect.y] is
    410.6, which the Rect holds as 411: the bottom edge, at 501, has entered
    the platform.  Held as 410 it would not touch it. *)
Definition falling : Player.t :=
  Player.set_on_ground false (Player.set_vel_y 5.2%float (Player.new 500 405)).

Definition deadly_platform : Platform.t := Platform.new 450 500 220 false true.
Definition far_platform : Platform.t := Platform.new 0 100 220 true false.

(** The same player with the shield on, and with Invincibility running. *)
Definition shielded : Player.t := Player.set_shield_active true falling.
Definition invincible : Player.t := with_upgrade "Invincibility" 2 falling.

(** A player rising at 10 pixels per tick through the deadly platform. *)
Definition rising : Player.t :=
  Player.set_on_ground false (Player.set_vel_y (-10)%float (Player.new 500 425)).

(** A Speed Boost orb, as [Orb(0, 0)] makes it when [choice] answers 1. *)
Definition speed_orb : Orb.t :=
  Orb.mk {| Orb.name := "Speed Boost"; Orb.duration := 900 |} (Rect.mk 100 (-50) 40 40).

(** Each x of the list is at least [min_horizontal_gap] away from the one
    before it, the first from [prev]. *)
Fixpoint spaced (prev : Z) (xs : list Z) : Prop :=
  match xs with
  | [] => True
  | x :: xs => Main.min_horizontal_gap ≤ Z.abs (x - prev) ∧ spaced x xs
  end.

(** One turn of a generator loop: one platform is added at the end of the
    group, at the new [last_x], far enough from the old one; it is deadly
    only if the turn ran at level 3 or more. *)
Definition adds (level : option Z) (st st' : Main.gen) : Prop :=
  ∃ p, Main.platforms st' = Main.platforms st ++ [p]
    ∧ Rect.x (Platform.rect p) = Main.last_x st'
    ∧ Main.min_horizontal_gap ≤ Z.abs (Main.last_x st' - Main.last_x st)
    ∧ (Platform.deadly p = true → ∃ l, level = Some l ∧ 3 ≤ l).

(** What the generator keeps true of its state. *)
Definition chain (st : Main.gen) : Prop :=
  Main.platforms st ≠ []
  ∧ spaced (GameSettings.SCREEN_WIDTH / 2) (generated_xs st)
  ∧ Main.last_x st = List.last (generated_xs st) (GameSettings.SCREEN_WIDTH / 2).

(** Deadly platforms come only from batches at level 3 or more: platform
    [k] of the generated ones belongs to batch [(k - 13) / 5]. *)
Definition deadly_only_late (batches : list (float * Z)) (made : list Platform.t) : Prop :=
  ∀ k p, made !! k = Some p → Platform.deadly p = true →
    (Main.num_platforms ≤ k)%nat
    ∧ ∃ gap_mult level,
        batches !! ((k - Main.num_platforms) / 5)%nat = Some (gap_mult, level) ∧ 3 ≤ level.

(** The answers of the random module for one seeded platform at [x] (gap 80,
    not breakable, no orb) and for one batch platform at [x] with the given
    breakable, deadly and orb rolls (the deadly roll is only asked for from
    level 3 on). *)
Definition seed_answers (x : Z) : list sample :=
  [RandInt x; RandInt 80; RandFloat 0.5; RandFloat 0.5].
Definition batch_answers (x : Z) (rolls : list float) : list sample :=
  [RandInt x; RandInt 20] ++ (RandFloat <$> rolls).

(** Thirteen seeded platforms, alternately at 100 and 700; the first answer,
    500, is too close to the starting [last_x] and is drawn again. *)
Definition seed_tape : list sample :=
  RandInt 500 ::
  mjoin (seed_answers <$> [100; 700; 100; 700; 100; 700; 100; 700; 100; 700; 100; 700; 100]).

(** Then a batch at level 3 whose first platform rolls 0.25 (breakable) and
    0.05 (deadly). *)
Definition late_tape : list sample :=
  seed_tape
  ++ batch_answers 700 [0.25; 0.05; 0.5]%float
  ++ batch_answers 100 [0.5; 0.5; 0.5]%float
  ++ batch_answers 700 [0.5; 0.5; 0.5]%float
  ++ batch_answers 100 [0.5; 0.5; 0.5]%float
  ++ batch_answers 700 [0.5; 0.5; 0.5]%float.

(** The same batch at level 0, where no deadly roll is asked for. *)
Definition early_tape : list sample :=
  seed_tape
  ++ batch_answers 700 [0.25; 0.5]%float
  ++ batch_answers 100 [0.5; 0.5]%float
  ++ batch_answers 700 [0.5; 0.5]%float
  ++ batch_answers 100 [0.5; 0.5]%float
  ++ batch_answers 700 [0.5; 0.5]%float.

(** The stores the game itself can leave behind: no file, or what a save of
    a non-negative score, successful or not, makes of such a store. *)
Inductive game_file : file → Prop :=
| game_file_missing : game_file None
| game_file_saved io score f :
    game_file f → 0 ≤ score → game_file (save_high_score io score f).1.

(** A store someone else wrote: valid JSON, but a list. *)
Definition foreign_file : file := Some (Json (PyList [])).

(** A store whose bytes are not text in the encoding [open] reads with. *)
Definition binary_file : file := Some Undecodable.

(** ** The rest of the main loop *)

(** The exact value of a finite float, as a fraction. *)
Definition exact (f : float) : option Q :=
  match Prim2SF f with
  | S754_zero _ => Some 0%Q
  | S754_finite s m e =>
      let q := if 0 <=? e then inject_Z (Z.pos m * 2 ^ e)
               else Qmake (Z.pos m) (Z.to_pos (2 ^ (- e))) in
      Some (if s then Qopp q else q)
  | S754_infinity _ | S754_nan => None
  end.

(** The same player with Jump Boost running. *)
Definition boosted : Player.t := with_upgrade "Jump Boost" 5 falling.

(** A player in the air under Gravity Reduction, two frames into a run. *)
Definition floating : Player.t :=
  with_upgrade "Gravity Reduction" 5
    (Player.set_on_ground false (Player.set_vel_y 0.4%float (Player.new 512 384))).

(** [rect.centery]. *)
Definition centery (r : Rect.t) : Z := Rect.y r + Z.quot (Rect.h r) 2.

Module Game.
Import GameSettings.

(** The names a run of [main] keeps between two frames. *)
Record world := mk {
  player : Player.t;
  gen : Main.gen;
  initial_player_y : Z;
  highest_player_y : Z;
  score : Z;
  current_difficulty : Z
}.

Definition set_platforms (platforms : list Platform.t) (g : Main.gen) : Main.gen :=
  Main.mk (Main.last_x g) (Main.platform_height g) (Main.highest_platform_y g)
    platforms (Main.orbs g).
Definition set_orbs (orbs : list Orb.t) (g : Main.gen) : Main.gen :=
  Main.mk (Main.last_x g) (Main.platform_height g) (Main.highest_platform_y g)
    (Main.platforms g) orbs.

(** The start of a run: the player at the centre of the screen, the ground,
    the seeded platforms. *)
Definition new_run (tape : list sample) : option (world * list sample) :=
  '(g, tape) ← Main.seed tape;
  let player := Player.new (SCREEN_WIDTH / 2) (SCREEN_HEIGHT / 2) in
  Some (mk player g (Rect.y (Player.rect player)) (Rect.y (Player.rect player)) 0 0, tape).

(** The new height record and score: [int((initial - highest) / 10)] when the
    player is higher than ever, the old values otherwise. *)
Definition climb (initial_player_y highest_player_y score y : Z) : option (Z * Z) :=
  if y <? highest_player_y then
    score ← int_of_float (Z2F (initial_player_y - y) / Z2F 10)%float;
    Some (y, score)
  else Some (highest_player_y, score).

(** A sprite is dropped once its top is more than 100 pixels below the
    bottom of the screen; a platform also when it is marked to break. *)
Definition below_screen (camera_y : Z) (r : Rect.t) : bool :=
  camera_y + SCREEN_HEIGHT + 100 <? Rect.top r.

Definition to_remove (camera_y : Z) (platform : Platform.t) : bool :=
  if below_screen camera_y (Platform.rect platform) then true
  else if Platform.will_break platform then true
  else false.

Definition prune_platforms (camera_y : Z) (platforms : list Platform.t) : list Platform.t :=
  filter (λ platform, to_remove camera_y platform = false) platforms.

Definition prune_orbs (camera_y : Z) (orbs : list Orb.t) : list Orb.t :=
  filter (λ orb, below_screen camera_y (Orb.rect orb) = false) orbs.

(** [pygame.sprite.spritecollide(player, orbs, False)]. *)
Definition collected_orbs (player : Player.t) (orbs : list Orb.t) : list Orb.t :=
  filter (λ orb, Rect.colliderect (Player.rect player) (Orb.rect orb) = true) orbs.

(** The orb pickup loop: each collected orb is applied in group order and
    taken out of the group. *)
Definition collect_orbs (player : Player.t) (orbs : list Orb.t) : Player.t * list Orb.t :=
  (foldl (λ player orb, Main.collect orb player) player (collected_orbs player orbs),
   filter (λ orb, Rect.colliderect (Player.rect player) (Orb.rect orb) ≠ true) orbs).

(** The body of the main loop after the call of [update], whose results are
    [updated]: score, new batch, pruning, orb pickup. *)
Definition after_update (camera_y : Z) (gap_mult : float) (current_difficulty : Z)
    (w : world) (updated : Player.t * list Platform.t * bool) (tape : list sample)
    : option (world * bool * list sample) :=
  let player := updated.1.1 in
  let game_over := updated.2 in
  '(highest_player_y, score) ←
    climb (initial_player_y w) (highest_player_y w) (score w) (Rect.y (Player.rect player));
  let g := set_platforms updated.1.2 (gen w) in
  '(g, tape) ←
    (if Rect.top (Player.rect player) <? Main.highest_platform_y g + SCREEN_HEIGHT
     then Main.extend gap_mult current_difficulty g tape
     else Some (g, tape));
  let g := set_platforms (prune_platforms camera_y (Main.platforms g)) g in
  let g := set_orbs (prune_orbs camera_y (Main.orbs g)) g in
  let collected := collect_orbs player (Main.orbs g) in
  let g := set_orbs collected.2 g in
  Some (mk collected.1 g (initial_player_y w) highest_player_y score current_difficulty,
        game_over, tape).

(** One pass through the body of the main loop, with the held keys of the
    frame; the pause key and the drawing are left out.  The flag is
    [game_over]. *)
Definition tick (keys : Keys) (w : world) (tape : list sample)
    : option (world * bool * list sample) :=
  let player := Player.handle_input keys (player w) in
  let camera_y := centery (Player.rect player) - SCREEN_HEIGHT / 2 in
  '(gravity_mult, jump_mult, gap_mult, current_difficulty) ←
    get_difficulty_modifiers (score w);
  after_update camera_y gap_mult current_difficulty w
    (Player.update player (Main.platforms (gen w)) gravity_mult jump_mult) tape.

(** The end of a run, for the int [high_score] that [load_high_score]
    returned at its start: the score is saved when it is higher. *)
Definition record_high_score (io : write_io) (score high_score : Z) (high_score_file : file)
    : Z * file :=
  if high_score <? score then (score, (save_high_score io score high_score_file).1)
  else (high_score, high_score_file).
End Game.

(** ** The three menus

    Each menu polls [pygame.event.get()] once per frame and returns at the
    first event that decides; [frames] are the successive answers of the
    poll, and a menu that runs out of them is still waiting. *)

Inductive event :=
| QUIT
| KEYDOWN (key : Z)
| OtherEvent.

Definition K_RETURN : Z := 13.
Definition K_ESCAPE : Z := 27.
Definition K_SPACE : Z := 32.
Definition K_q : Z := 113.
Definition K_r : Z := 114.

Inductive pause_action := resume | restart | quit.

(** The [for event in pygame.event.get()] loop: the first decision. *)
Fixpoint first_decision {A} (decide : event → option A) (events : list event) : option A :=
  match events with
  | [] => None
  | e :: events =>
      match decide e with
      | Some a => Some a
      | None => first_decision decide events
      end
  end.

(** The [while True] loop around it. *)
Fixpoint menu {A} (decide : event → option A) (frames : list (list event)) : option A :=
  match frames with
  | [] => None
  | events :: frames =>
      match first_decision decide events with
      | Some a => Some a
      | None => menu decide frames
      end
  end.

Definition game_over_event (e : event) : option bool :=
  match e with
  | QUIT => Some false
  | KEYDOWN key =>
      if key =? K_r then Some true
      else if (key =? K_ESCAPE) || (key =? K_q) then Some false
      else None
  | OtherEvent => None
  end.

Definition start_event (e : event) : option bool :=
  match e with
  | QUIT => Some false
  | KEYDOWN key =>
      if (key =? K_RETURN) || (key =? K_SPACE) then Some true
      else if (key =? K_ESCAPE) || (key =? K_q) then Some false
      else None
  | OtherEvent => None
  end.

Definition pause_event (e : event) : option pause_action :=
  match e with
  | QUIT => Some quit
  | KEYDOWN key =>
      if key =? K_ESCAPE then Some resume
      else if key =? K_r then Some restart
      else if key =? K_q then Some quit
      else None
  | OtherEvent => None
  end.

Definition show_game_over_screen : list (list event) → option bool := menu game_over_event.
Definition show_start_screen : list (list event) → option bool := menu start_event.
Definition show_pause_menu : list (list event) → option pause_action := menu pause_event.

(** ** Notions the further properties are stated with *)

(** One frame for the player: [handle_input], then [update], with the
    arguments of that frame. *)
Definition frame_step (frame : Keys * list Platform.t * float * float) (p : Player.t)
    : Player.t * list Platform.t * bool :=
  let '(keys, platforms, gravity_mult, jump_mult) := frame in
  Player.update (Player.handle_input keys p) platforms gravity_mult jump_mult.

(** The successive players and returned flags over several frames. *)
Fixpoint play (frames : list (Keys * list Platform.t * float * float)) (p : Player.t)
    : list (Player.t * bool) :=
  match frames with
  | [] => []
  | frame :: frames =>
      ((frame_step frame p).1.1, (frame_step frame p).2)
      :: play frames (frame_step frame p).1.1
  end.

(** Two platforms that differ at most in [will_break]. *)
Definition same_but_flag (a b : Platform.t) : Prop :=
  Platform.rect b = Platform.rect a
  ∧ Platform.breakable b = Platform.breakable a
  ∧ Platform.deadly b = Platform.deadly a.

(** An event that decides nothing in the menu. *)
Definition idle {A} (decide : event → option A) (e : event) : Prop := decide e = None.

(** The player after those frames. *)
Fixpoint after (frames : list (Keys * list Platform.t * float * float)) (p : Player.t)
    : Player.t :=
  match frames with
  | [] => p
  | frame :: frames => after frames (frame_step frame p).1.1
  end.

(** 211 frames in which nothing is held, there is no platform and no
    gravity. *)
Definition idle_frames : list (Keys * list Platform.t * float * float) :=
  replicate 211 (held false false, [], 0%float, 1%float).

(** An orb's kind is one of the five listed ones. *)
Definition listed (orb : Orb.t) : Prop := Orb.upgrade_of orb ∈ Orb.UPGRADES.

(** Some collected orb carries the timed upgrade [name]. *)
Definition picked (name : string) (collected : list Orb.t) : bool :=
  negb (String.eqb name "Shield")
  && existsb (λ orb, String.eqb (Orb.name (Orb.upgrade_of orb)) name) collected.

(** A world without deadly platforms. *)
Definition harmless (w : Game.world) : Prop :=
  Forall (λ p, Platform.deadly p = false) (Main.platforms (Game.gen w)).

(** A second player state for the frame samples: falling onto a breakable
    platform. *)
Definition brittle_platform : Platform.t := Platform.new 450 500 220 true false.

(** What every generated platform looks like: 220 by 15, its left edge
    between 0 and SCREEN_WIDTH - 120, not marked to break. *)
Definition shaped (p : Platform.t) : Prop :=
  0 ≤ Rect.x (Platform.rect p) ≤ GameSettings.SCREEN_WIDTH - 120
  ∧ Rect.w (Platform.rect p) = 220
  ∧ Rect.h (Platform.rect p) = 15
  ∧ Platform.will_break p = false.

(** The orb was made for the platform: the platform is not deadly, the orb
    is 40 by 40, 100 to the right of and 50 above the platform's corner, and
    of a listed kind. *)
Definition floats_over (o : Orb.t) (p : Platform.t) : Prop :=
  Platform.deadly p = false
  ∧ Orb.rect o
    = Rect.mk (Rect.x (Platform.rect p) + 100) (Rect.y (Platform.rect p) - 50) 40 40
  ∧ listed o.

(** What the generator keeps true of its platforms and orbs. *)
Definition stocked (st : Main.gen) : Prop :=
  Main.platforms st ≠ []
  ∧ Forall shaped (Main.generated st)
  ∧ Forall (λ o, ∃ p, p ∈ Main.generated st ∧ floats_over o p) (Main.orbs st)
  ∧ (length (Main.orbs st) ≤ length (Main.generated st))%nat.

(** The seeding after [k] turns: [k] platforms, each at or below the current
    height, the one of turn [j + 1] at most at [max(100, 508 - 60 j)], each at
    or above the one before it, and the height itself between 100 and
    [max(100, 568 - 60 k)]. *)
Definition seeded (k : nat) (st : Main.gen) : Prop :=
  Main.platforms st ≠ []
  ∧ length (Main.generated st) = k
  ∧ Main.highest_platform_y st = Main.platform_height st
  ∧ 100 ≤ Main.platform_height st ≤ Z.max 100 (568 - 60 * Z.of_nat k)
  ∧ (∀ j p, Main.generated st !! j = Some p →
       Main.platform_height st ≤ Rect.y (Platform.rect p)
       ∧ Rect.y (Platform.rect p) ≤ Z.max 100 (508 - 60 * Z.of_nat j))
  ∧ (∀ j a b, Main.generated st !! j = Some a → Main.generated st !! S j = Some b →
       Rect.y (Platform.rect b) ≤ Rect.y (Platform.rect a)).

(** An event that leaves the game-over screen, the start screen or the pause
    menu waiting. *)
Definition idle_game_over (e : event) : Prop :=
  e ≠ QUIT ∧ e ≠ KEYDOWN K_r ∧ e ≠ KEYDOWN K_ESCAPE ∧ e ≠ KEYDOWN K_q.
Definition idle_start (e : event) : Prop :=
  e ≠ QUIT ∧ e ≠ KEYDOWN K_RETURN ∧ e ≠ KEYDOWN K_SPACE
  ∧ e ≠ KEYDOWN K_ESCAPE ∧ e ≠ KEYDOWN K_q.
Definition idle_pause (e : event) : Prop :=
  e ≠ QUIT ∧ e ≠ KEYDOWN K_ESCAPE ∧ e ≠ KEYDOWN K_r ∧ e ≠ KEYDOWN K_q.

(** The events polled are [before], then [e], then [after], over any number
    of frames. *)
Definition polled (frames : list (list event)) (before : list event) (e : event)
    (after : list event) : Prop :=
  mjoin frames = before ++ e :: after.

(** A falling player above the breakable platform, and a world of one run
    for the frame samples. *)
Definition orb_at_player : Orb.t :=
  Orb.mk {| Orb.name := "Jump Boost"; Orb.duration := 900 |} (Rect.mk 520 400 40 40).
Definition shield_at_player : Orb.t :=
  Orb.mk {| Orb.name := "Shield"; Orb.duration := 0 |} (Rect.mk 530 420 40 40).
Definition orb_elsewhere : Orb.t :=
  Orb.mk {| Orb.name := "Speed Boost"; Orb.duration := 900 |} (Rect.mk 0 0 40 40).

(** * Properties *)

(** ** Float comparisons *)

Section FloatOrder.
Implicit Types a b : float.

Lemma float_lt_le a b : (a <? b)%float = true → (a <=? b)%float = true.
Proof.
  rewrite FloatAxioms.ltb_spec, FloatAxioms.leb_spec. unfold SFltb, SFleb.
  by destruct (SFcompare (Prim2SF a) (Prim2SF b)) as [[]|].
Qed.

Lemma float_le_refl_finite a :
  (a =? a)%float = true → (a <=? a)%float = true.
Proof.
  rewrite FloatAxioms.eqb_spec, FloatAxioms.leb_spec. unfold SFeqb, SFleb.
  by destruct (SFcompare (Prim2SF a) (Prim2SF a)) as [[]|].
Qed.

(** A velocity that is [<= 0] is not [> 0]. *)
Lemma float_nonpos_not_pos a : (a <=? 0)%float = true → (0 <? a)%float = false.
Proof.
  rewrite FloatAxioms.ltb_spec, FloatAxioms.leb_spec. unfold SFltb, SFleb.
  change (Prim2SF 0) with (S754_zero false).
  destruct (Prim2SF a) as [s|s| |s m e]; simpl; try done; by destruct s.
Qed.

Lemma py_max_lower a b : (a =? a)%float = true → (a <=? py_max a b)%float = true.
Proof.
  intros Ha. unfold py_max. destruct (a <? b)%float eqn:E.
  - by apply float_lt_le.
  - by apply float_le_refl_finite.
Qed.

End FloatOrder.

(** ** Difficulty scaling *)

Lemma float_of_int_in_range n :
  Z.abs n < FLOAT_OVERFLOW → float_of_int n = Some (Z2F n).
Proof. intros H. unfold float_of_int. by rewrite (proj2 (Z.ltb_lt _ _) H). Qed.

Lemma float_of_int_overflow n : float_of_int n = None → FLOAT_OVERFLOW ≤ Z.abs n.
Proof. unfold float_of_int. destruct (Z.ltb_spec (Z.abs n) FLOAT_OVERFLOW); [done | lia]. Qed.

(** The conversion overflows exactly from [FLOAT_OVERFLOW] on. *)
Example Z2F_last_finite : Prim2SF (Z2F (FLOAT_OVERFLOW - 1)) = S754_finite false (2 ^ 53 - 1) 971.
Proof. vm_compute. reflexivity. Qed.

Example Z2F_first_infinite : Z2F FLOAT_OVERFLOW = infinity.
Proof. vm_compute. reflexivity. Qed.

(** C8. The difficulty scaler: for every non-negative score the level is the
    floor of score/500, the three multipliers are 1 + 0.05 level,
    max(0.85, 1 - 0.02 level) and 1 + 0.03 level, and the jump multiplier is at
    least 0.85; the call has no result only when the level is too large for a
    float.  At score 0 it gives (1.0, 1.0, 1.0, 0) and at score 500
    (1.05, 0.98, 1.03, 1). *)
Theorem difficulty_scaler (score : Z) :
  0 ≤ score →
  match get_difficulty_modifiers score with
  | Some (gravity_mult, jump_mult, gap_mult, level) =>
      500 * level ≤ score < 500 * (level + 1)
      ∧ 0 ≤ level
      ∧ gravity_mult = (1.0 + Z2F level * 0.05)%float
      ∧ (((0.85 <? 1.0 - Z2F level * 0.02)%float = true
          ∧ jump_mult = (1.0 - Z2F level * 0.02)%float)
         ∨ ((0.85 <? 1.0 - Z2F level * 0.02)%float = false ∧ jump_mult = 0.85%float))
      ∧ gap_mult = (1.0 + Z2F level * 0.03)%float
      ∧ (0.85 <=? jump_mult)%float = true
  | None => FLOAT_OVERFLOW ≤ score / 500
  end
  ∧ (score / 500 < FLOAT_OVERFLOW → is_Some (get_difficulty_modifiers score))
  ∧ get_difficulty_modifiers 0 = Some (1.0%float, 1.0%float, 1.0%float, 0)
  ∧ get_difficulty_modifiers 500 = Some (1.05%float, 0.98%float, 1.03%float, 1).
Proof.
  intros Hs. unfold get_difficulty_modifiers, GameSettings.SCORE_PER_DIFFICULTY.
  assert (Hl : 0 ≤ score / 500) by (apply Z.div_pos; lia).
  split; [|split; [|split; [vm_compute; reflexivity | vm_compute; reflexivity]]].
  - destruct (float_of_int (score / 500)) as [lf|] eqn:E; simpl.
    + unfold float_of_int in E.
      destruct (Z.abs (score / 500) <? FLOAT_OVERFLOW); [|done].
      injection E as <-.
      pose proof (Z.mul_div_le score 500 ltac:(lia)).
      pose proof (Z.mul_succ_div_gt score 500 ltac:(lia)).
      repeat split; try lia.
      * unfold py_max. destruct (0.85 <? 1.0 - Z2F (score / 500) * 0.02)%float; auto.
      * by apply py_max_lower.
    + apply float_of_int_overflow in E. lia.
  - intros Hr. rewrite float_of_int_in_range by lia. simpl. eauto.
Qed.

Lemma difficulty_scaler_witness :
  0 ≤ 4321
  ∧ ∃ gravity_mult jump_mult gap_mult level,
      get_difficulty_modifiers 4321 = Some (gravity_mult, jump_mult, gap_mult, level)
      ∧ 500 * level ≤ 4321 < 500 * (level + 1)
      ∧ (0.85 <=? jump_mult)%float = true.
Proof.
  split; [lia|].
  destruct (difficulty_scaler 4321 ltac:(lia)) as [H _].
  destruct (get_difficulty_modifiers 4321) as [[[[g j] gap] level]|] eqn:E.
  - destruct H as (H1 & _ & _ & _ & _ & H2). exists g, j, gap, level. auto.
  - vm_compute in E. discriminate E.
Defined.

(** ** Input *)

Section Input.
Import GameSettings Player.
Variables (keys : Keys) (self : Player.t).

Lemma handle_input_direction :
  handle_input keys self = set_vel_x (direction keys * PLAYER_SPEED) self.
Proof.
  unfold handle_input, direction.
  destruct (K_RIGHT keys || K_d keys), (K_LEFT keys || K_a keys); reflexivity.
Qed.

(** C10. With a left key and a right key held together, [handle_input]
    leaves the horizontal velocity at +PLAYER_SPEED, the right test being
    the second of the two; with none of the four keys held it leaves 0. *)
Theorem right_wins :
  (K_LEFT keys || K_a keys = true → K_RIGHT keys || K_d keys = true →
   vel_x (handle_input keys self) = PLAYER_SPEED)
  ∧ (K_LEFT keys || K_a keys = false → K_RIGHT keys || K_d keys = false →
     vel_x (handle_input keys self) = 0)
  ∧ (K_RIGHT keys || K_d keys = true → vel_x (handle_input keys self) = PLAYER_SPEED)
  ∧ (K_LEFT keys || K_a keys = true → K_RIGHT keys || K_d keys = false →
     vel_x (handle_input keys self) = - PLAYER_SPEED).
Proof.
  unfold handle_input.
  repeat split; intros; repeat match goal with H : _ = _ |- _ => rewrite H end; reflexivity.
Qed.

End Input.

Lemma right_wins_witness :
  (K_LEFT (held true true) || K_a (held true true) = true)
  ∧ (K_RIGHT (held true true) || K_d (held true true) = true)
  ∧ Player.vel_x (Player.handle_input (held true true) (Player.new 512 384)) = 7
  ∧ Player.vel_x (Player.handle_input (held false false) (Player.new 512 384)) = 0.
Proof.
  split; [reflexivity|]. split; [reflexivity|]. split.
  - exact (proj1 (right_wins (held true true) (Player.new 512 384)) eq_refl eq_refl).
  - exact (proj1 (proj2 (right_wins (held false false) (Player.new 512 384))) eq_refl eq_refl).
Defined.

(** ** What [update] leaves alone *)

Section Frame.
Import GameSettings Player.

Lemma resolve_outcome self jump_mult platforms hits :
  match resolve self jump_mult platforms hits with
  | Landed self' platforms' =>
      ∃ i platform, (i, platform) ∈ hits
        ∧ Rect.bottom (rect self) ≤ Rect.bottom (Platform.rect platform)
        ∧ self' = land platform jump_mult
                    (set_shield_active (shield_active self && negb (Platform.deadly platform)) self)
        ∧ length platforms' = length platforms
  | Died => ∃ i platform, (i, platform) ∈ hits ∧ Platform.deadly platform = true
  | Missed => True
  end.
Proof.
  induction hits as [|[i platform] hits IH]; simpl; [done|].
  destruct (Z.leb_spec (Rect.bottom (rect self)) (Rect.bottom (Platform.rect platform))).
  - assert (Hin : (i, platform) ∈ (i, platform) :: hits) by apply list_elem_of_here.
    assert (Hid : set_shield_active (shield_active self) self = self) by by destruct self.
    destruct (Platform.deadly platform) eqn:Hd.
    + destruct (shield_active self) eqn:Hs.
      * exists i, platform. by rewrite Hd.
      * destruct (contains "Invincibility" (active_upgrades self)).
        -- exists i, platform. rewrite Hd. simpl. by rewrite Hid.
        -- by exists i, platform.
    + exists i, platform. rewrite Hd, length_insert, andb_true_r, Hid. done.
  - destruct (resolve self jump_mult platforms hits) as [|s' ps'|]; [| |done].
    + destruct IH as (j & q & ? & ?). exists j, q. rewrite elem_of_cons. auto.
    + destruct IH as (j & q & ? & ?). exists j, q. rewrite elem_of_cons. auto.
Qed.

Lemma untouched_land platform jump_mult b self :
  untouched self (land platform jump_mult (set_shield_active b self)).
Proof. done. Qed.

Lemma untouched_finish self platforms : untouched self (finish self platforms).1.1.
Proof.
  unfold finish, track_fall, clamp; simpl.
  repeat match goal with |- context [if ?c then _ else _] => destruct c end; done.
Qed.

Lemma untouched_trans a b c : untouched a b → untouched b c → untouched a c.
Proof. unfold untouched. intros [-> ->] [-> ->]. done. Qed.

Lemma update_untouched self platforms gravity_mult jump_mult :
  untouched (before_collision self gravity_mult)
    (update self platforms gravity_mult jump_mult).1.1.
Proof.
  unfold update.
  set (s := before_collision self gravity_mult).
  set (jm := effective_jump self jump_mult).
  destruct (0 <? vel_y s)%float; [|apply untouched_finish].
  pose proof (resolve_outcome s jm platforms (spritecollide s platforms)) as H.
  destruct (resolve s jm platforms (spritecollide s platforms)) as [|s' ps'|].
  - done.
  - destruct H as (i & q & _ & _ & -> & _).
    eapply untouched_trans; [apply untouched_land | apply untouched_finish].
  - apply untouched_finish.
Qed.

Lemma before_collision_vel_x self gravity_mult :
  vel_x (before_collision self gravity_mult) = vel_x (speed_boost self).
Proof. reflexivity. Qed.

Lemma before_collision_upgrades self gravity_mult :
  active_upgrades (before_collision self gravity_mult) = tick_upgrades (active_upgrades self).
Proof.
  unfold before_collision, integrate, speed_boost; simpl.
  repeat match goal with |- context [if ?c then _ else _] => destruct c end; done.
Qed.

Lemma update_vel_x self platforms gravity_mult jump_mult :
  vel_x (update self platforms gravity_mult jump_mult).1.1 = vel_x (speed_boost self).
Proof.
  rewrite <- (before_collision_vel_x self gravity_mult).
  apply (update_untouched self platforms gravity_mult jump_mult).
Qed.

Lemma update_upgrades self platforms gravity_mult jump_mult :
  active_upgrades (update self platforms gravity_mult jump_mult).1.1
  = tick_upgrades (active_upgrades self).
Proof.
  rewrite <- (before_collision_upgrades self gravity_mult).
  apply (update_untouched self platforms gravity_mult jump_mult).
Qed.

End Frame.

(** ** Speed Boost *)

Section SpeedBoost.
Import GameSettings Player.

Lemma boosted_speed_values : boosted_speed 1 = 10 ∧ boosted_speed (-1) = -10.
Proof. split; vm_compute; reflexivity. Qed.

Lemma speed_boost_active self :
  contains "Speed Boost" (active_upgrades self) = true →
  vel_x (speed_boost self) =
    if 0 <? vel_x self then 10 else if vel_x self <? 0 then -10 else vel_x self.
Proof.
  intros H. unfold speed_boost. rewrite H.
  destruct boosted_speed_values as [-> ->].
  destruct (0 <? vel_x self); [done|]. by destruct (vel_x self <? 0).
Qed.

(** C5, as the code has it.  With Speed Boost among the active upgrades at
    the start of the tick, the horizontal velocity after [handle_input] and
    [update] is the raw input direction times [int(PLAYER_SPEED * 1.5)], that
    is times 10: the product 10.5 is truncated toward zero.  With no
    direction held it is 0. *)
Theorem speed_boost_truncated keys self platforms gravity_mult jump_mult :
  contains "Speed Boost" (active_upgrades self) = true →
  vel_x (update (handle_input keys self) platforms gravity_mult jump_mult).1.1
    = direction keys * 10
  ∧ int_of_float (Z2F PLAYER_SPEED * 1.5)%float = Some 10
  ∧ (direction keys = 0 →
     vel_x (update (handle_input keys self) platforms gravity_mult jump_mult).1.1 = 0).
Proof.
  intros H.
  assert (E : vel_x (update (handle_input keys self) platforms gravity_mult jump_mult).1.1
              = direction keys * 10).
  { rewrite update_vel_x, speed_boost_active; rewrite handle_input_direction; [|exact H].
    unfold direction, PLAYER_SPEED; simpl.
    destruct (K_RIGHT keys || K_d keys); [done|].
    by destruct (K_LEFT keys || K_a keys). }
  split; [exact E|]. split; [vm_compute; reflexivity|].
  intros Hd. rewrite E, Hd. reflexivity.
Qed.

End SpeedBoost.

Lemma speed_boost_truncated_witness :
  contains "Speed Boost"
    (Player.active_upgrades (with_upgrade "Speed Boost" 900 (Player.new 512 384))) = true
  ∧ Player.vel_x
      (Player.update
         (Player.handle_input (held true false)
            (with_upgrade "Speed Boost" 900 (Player.new 512 384)))
         [Main.ground] 1%float 1%float).1.1 = direction (held true false) * 10.
Proof.
  split; [vm_compute; reflexivity|].
  apply (speed_boost_truncated (held true false)
           (with_upgrade "Speed Boost" 900 (Player.new 512 384))).
  vm_compute; reflexivity.
Defined.

(** C5 as stated fails: with Speed Boost active and the right key held the
    velocity is 10, not 1 * PLAYER_SPEED * 1.5 = 10.5. *)
Lemma speed_boost_not_exact :
  contains "Speed Boost"
    (Player.active_upgrades (with_upgrade "Speed Boost" 900 (Player.new 512 384))) = true
  ∧ direction (held false true) = 1
  ∧ Player.vel_x
      (Player.update
         (Player.handle_input (held false true)
            (with_upgrade "Speed Boost" 900 (Player.new 512 384)))
         [Main.ground] 1%float 1%float).1.1 = 10
  ∧ ¬ (inject_Z
         (Player.vel_x
            (Player.update
               (Player.handle_input (held false true)
                  (with_upgrade "Speed Boost" 900 (Player.new 512 384)))
               [Main.ground] 1%float 1%float).1.1)
       == inject_Z (direction (held false true)) * inject_Z GameSettings.PLAYER_SPEED * (15 # 10))%Q.
Proof.
  split; [vm_compute; reflexivity|]. split; [reflexivity|].
  split; [vm_compute; reflexivity|].
  vm_compute. discriminate.
Qed.

(** ** Upgrade timers *)

Section Timers.
Import Player.
Implicit Types d : gmap string Z.

Lemma delete_all_lookup (names : list string) d name :
  foldl (λ acc n, delete n acc) d names !! name
  = if decide (name ∈ names) then None else d !! name.
Proof.
  revert d. induction names as [|n names IH]; intros d; cbn [foldl].
  - destruct (decide (name ∈ [])) as [Hin|]; [|done]. by apply not_elem_of_nil in Hin.
  - rewrite IH. destruct (decide (name = n)) as [->|Hne].
    + rewrite lookup_delete_eq.
      rewrite (decide_True (P := n ∈ n :: names)) by apply list_elem_of_here.
      by destruct (decide (n ∈ names)).
    + rewrite lookup_delete_ne by done.
      destruct (decide (name ∈ names)) as [Hin|Hin].
      * rewrite decide_True; [done | by apply list_elem_of_further].
      * rewrite decide_False; [done|]. rewrite elem_of_cons. tauto.
Qed.

Lemma elem_of_expired d name :
  name ∈ expired d ↔ ∃ remaining, d !! name = Some remaining ∧ remaining ≤ 0.
Proof.
  unfold expired. rewrite list_elem_of_fmap. split.
  - intros [[k v] [-> Hin]]. apply elem_of_map_to_list in Hin.
    apply map_lookup_filter_Some in Hin. by exists v.
  - intros (v & Hl & Hle). exists (name, v). split; [done|].
    apply elem_of_map_to_list, map_lookup_filter_Some. done.
Qed.

(** One tick on one entry: the value drops by one, and the entry goes when
    the new value is [<= 0]. *)
Lemma tick_upgrades_lookup d name :
  tick_upgrades d !! name
  = match d !! name with
    | Some remaining => if decide (remaining - 1 ≤ 0) then None else Some (remaining - 1)
    | None => None
    end.
Proof.
  unfold tick_upgrades. rewrite delete_all_lookup.
  destruct (decide (name ∈ expired (decrement_timers d))) as [Hin|Hin].
  - apply elem_of_expired in Hin as (v & Hl & Hle).
    unfold decrement_timers in Hl. rewrite lookup_fmap in Hl.
    destruct (d !! name) as [r|]; simpl in *; [|done].
    injection Hl as <-. by rewrite decide_True.
  - unfold decrement_timers in *. rewrite lookup_fmap.
    destruct (d !! name) as [r|] eqn:E; simpl; [|done].
    destruct (decide (r - 1 ≤ 0)) as [Hle|Hgt]; [|done].
    exfalso. apply Hin, elem_of_expired. exists (r - 1).
    by rewrite lookup_fmap, E.
Qed.

Lemma tick_upgrades_positive d :
  map_Forall (λ _ remaining, 0 < remaining) (tick_upgrades d).
Proof.
  intros name v Hl. rewrite tick_upgrades_lookup in Hl.
  destruct (d !! name) as [r|]; [|done].
  destruct (decide (r - 1 ≤ 0)); [done|]. injection Hl as <-. lia.
Qed.

Lemma choice_elem_of {A} (seq : list A) tape a rest :
  choice seq tape = Some (a, rest) → a ∈ seq.
Proof.
  unfold choice. intros H.
  destruct (randint 0 (Z.of_nat (length seq) - 1) tape) as [[i t]|]; simpl in H; [|done].
  destruct (seq !! Z.to_nat i) as [b|] eqn:E; simpl in H; [|done].
  injection H as <- <-. by eapply list_elem_of_lookup_2.
Qed.

(** An orb carries one of the five listed upgrades: 900 ticks unless Shield. *)
Lemma orb_upgrade x y tape orb rest :
  Orb.new x y tape = Some (orb, rest) →
  Orb.upgrade_of orb ∈ Orb.UPGRADES
  ∧ (String.eqb (Orb.name (Orb.upgrade_of orb)) "Shield" = false →
     Orb.duration (Orb.upgrade_of orb) = 900).
Proof.
  unfold Orb.new. intros H.
  destruct (choice Orb.UPGRADES tape) as [[u t]|] eqn:E; simpl in H; [|done].
  injection H as <- <-. apply choice_elem_of in E. split; [exact E|]. simpl.
  unfold Orb.UPGRADES in E. set_unfold in E.
  destruct E as [->| [->| [->| [->| [->|[]]]]]]; simpl; done.
Qed.

Lemma collect_positive orb player x y tape rest :
  Orb.new x y tape = Some (orb, rest) →
  map_Forall (λ _ remaining, 0 < remaining) (active_upgrades player) →
  map_Forall (λ _ remaining, 0 < remaining) (active_upgrades (Main.collect orb player)).
Proof.
  intros Horb Hp. apply orb_upgrade in Horb as [_ Hd]. unfold Main.collect.
  destruct (String.eqb (Orb.name (Orb.upgrade_of orb)) "Shield"); [exact Hp|].
  simpl. apply map_Forall_insert_2; [|exact Hp]. rewrite Hd by done. lia.
Qed.

Lemma reachable_positive player :
  reachable player → map_Forall (λ _ remaining, 0 < remaining) (active_upgrades player).
Proof.
  induction 1 as [x y|keys p _ IH|p platforms gm jm _ IH|x y tape orb rest p _ IH Horb].
  - apply map_Forall_empty.
  - by rewrite handle_input_direction.
  - rewrite update_upgrades. apply tick_upgrades_positive.
  - by eapply collect_positive.
Qed.

(** C6. In every reachable player state all remaining durations are
    positive.  An [update] lowers each entry by exactly 1 and removes it
    exactly when it was 1 (so reaches 0), adding none; picking up an orb of a
    timed kind sets that entry to the full 900 whatever it held, and leaves
    the others; a Shield orb leaves the map alone. *)
Theorem upgrade_timers player :
  reachable player →
  map_Forall (λ _ remaining, 0 < remaining) (active_upgrades player)
  ∧ (∀ platforms gravity_mult jump_mult name,
       active_upgrades (update player platforms gravity_mult jump_mult).1.1 !! name
       = match active_upgrades player !! name with
         | Some remaining => if decide (remaining = 1) then None else Some (remaining - 1)
         | None => None
         end)
  ∧ (∀ platforms gravity_mult jump_mult,
       map_Forall (λ _ remaining, 0 < remaining)
         (active_upgrades (update player platforms gravity_mult jump_mult).1.1))
  ∧ (∀ x y tape orb rest, Orb.new x y tape = Some (orb, rest) →
       if String.eqb (Orb.name (Orb.upgrade_of orb)) "Shield"
       then active_upgrades (Main.collect orb player) = active_upgrades player
       else active_upgrades (Main.collect orb player)
            = <[Orb.name (Orb.upgrade_of orb) := 900]> (active_upgrades player)).
Proof.
  intros Hr. pose proof (reachable_positive player Hr) as Hpos.
  split; [exact Hpos|]. split; [|split].
  - intros platforms gm jm name. rewrite update_upgrades, tick_upgrades_lookup.
    destruct (active_upgrades player !! name) as [r|] eqn:E; [|done].
    specialize (Hpos name r E). simpl in Hpos.
    destruct (decide (r = 1)) as [->|Hne].
    + by rewrite decide_True.
    + rewrite decide_False; [done | lia].
  - intros platforms gm jm. rewrite update_upgrades. apply tick_upgrades_positive.
  - intros x y tape orb rest Horb. apply orb_upgrade in Horb as [_ Hd].
    unfold Main.collect.
    destruct (String.eqb (Orb.name (Orb.upgrade_of orb)) "Shield"); [done|].
    simpl. by rewrite Hd.
Qed.

End Timers.

(** ** The collision block *)

Section Collision.
Import GameSettings Player.

Lemma before_collision_fields self gravity_mult :
  shield_active (before_collision self gravity_mult) = shield_active self
  ∧ fall_time (before_collision self gravity_mult) = fall_time self
  ∧ on_ground (before_collision self gravity_mult) = false
  ∧ vel_y (before_collision self gravity_mult)
    = (vel_y self + GRAVITY * effective_gravity self gravity_mult)%float.
Proof.
  unfold before_collision, integrate, speed_boost; simpl.
  repeat match goal with |- context [if ?c then _ else _] => destruct c end; done.
Qed.

(** Hits whose bottom test fails are passed over. *)
Lemma resolve_skip self jump_mult platforms skipped hits :
  Forall (λ ip, ¬ Rect.bottom (rect self) ≤ Rect.bottom (Platform.rect ip.2)) skipped →
  resolve self jump_mult platforms (skipped ++ hits) = resolve self jump_mult platforms hits.
Proof.
  induction 1 as [|[j q] skipped Hq _ IH]; simpl; [done|].
  rewrite (proj2 (Z.leb_gt _ _)); [exact IH | simpl in Hq; lia].
Qed.

(** The loop stops at the first platform of the group that passes both
    tests, and resolves that one. *)
Lemma resolve_lands_on self jump_mult platforms i platform :
  lands_on self platforms i platform →
  resolve self jump_mult platforms (spritecollide self platforms)
  = if Platform.deadly platform then
      if shield_active self then
        Landed (land platform jump_mult (set_shield_active false self)) platforms
      else if contains "Invincibility" (active_upgrades self) then
        Landed (land platform jump_mult self) platforms
      else Died
    else
      Landed (land platform jump_mult self)
        (<[i := Platform.set_will_break (Platform.breakable platform) platform]> platforms).
Proof.
  intros (Hi & [Hhit Hbot] & Hfirst). unfold spritecollide.
  rewrite <- (take_drop_middle platforms i platform Hi) at 2.
  rewrite imap_app, filter_app, imap_cons, filter_cons_True by exact Hhit.
  rewrite resolve_skip.
  - assert (Hlen : length (take i platforms) = i).
    { apply length_take_le. apply lookup_lt_Some in Hi. lia. }
    rewrite Hlen, Nat.add_0_r. cbn [resolve].
    by rewrite (proj2 (Z.leb_le _ _) Hbot).
  - apply Forall_forall. intros [j q] Hin.
    apply list_elem_of_filter in Hin as [Hc Hin]. simpl in *.
    apply elem_of_lookup_imap in Hin as (k & q' & [= -> ->] & Hk).
    apply lookup_take_Some in Hk as [Hk Hlt].
    intros Hb. by apply (Hfirst k q').
Qed.

Lemma clamp_fields self :
  Rect.y (rect (clamp self)) = Rect.y (rect self)
  ∧ Rect.h (rect (clamp self)) = Rect.h (rect self)
  ∧ vel_y (clamp self) = vel_y self
  ∧ on_ground (clamp self) = on_ground self
  ∧ fall_time (clamp self) = fall_time self
  ∧ shield_active (clamp self) = shield_active self
  ∧ active_upgrades (clamp self) = active_upgrades self.
Proof.
  unfold clamp.
  repeat match goal with |- context [if ?c then _ else _] => destruct c end; done.
Qed.

(** A landing, once [update] has finished: where the player is and how it
    moves. *)
Lemma finish_land self platform jump_mult platforms :
  ∃ self',
    finish (land platform jump_mult self) platforms
      = (self', platforms, SCREEN_HEIGHT + 200 <? Rect.top (rect self'))
    ∧ Rect.bottom (rect self') = Rect.top (Platform.rect platform)
    ∧ vel_y self' = (Z2F PLAYER_JUMP * jump_mult)%float
    ∧ fall_time self' = 0
    ∧ on_ground self' = true
    ∧ shield_active self' = shield_active self
    ∧ active_upgrades self' = active_upgrades self.
Proof.
  destruct (clamp_fields (land platform jump_mult self))
    as (Hy & Hh & Hv & Hog & Hft & Hsh & Hup).
  assert (Htf : track_fall (clamp (land platform jump_mult self))
                = clamp (land platform jump_mult self)).
  { unfold track_fall. by rewrite Hog. }
  exists (clamp (land platform jump_mult self)).
  unfold finish, fell. rewrite Htf, Hft, Hv, Hog, Hsh, Hup.
  unfold Rect.bottom, Rect.top. rewrite Hy, Hh. simpl.
  split; [|repeat split; first [done | unfold Rect.top; lia]].
  by destruct (SCREEN_HEIGHT + 200 <? _).
Qed.

Lemma clamp_shield b self :
  clamp (set_shield_active b self) = set_shield_active b (clamp self).
Proof.
  unfold clamp; simpl. destruct (Rect.left (rect self) <? 0); simpl.
  - by destruct (SCREEN_WIDTH <? Rect.right (Rect.set_left 0 (rect self))).
  - by destruct (SCREEN_WIDTH <? Rect.right (rect self)).
Qed.

Lemma set_shield_active_same self : set_shield_active (shield_active self) self = self.
Proof. by destruct self. Qed.

(** The player and the flag [finish] gives do not depend on the platforms. *)
Lemma finish_player self platforms platforms' :
  (finish self platforms).1.1 = (finish self platforms').1.1.
Proof. reflexivity. Qed.

Lemma finish_flag self platforms platforms' :
  (finish self platforms).2 = (finish self platforms').2.
Proof. reflexivity. Qed.

(** Clearing the shield commutes with a landing and what follows it. *)
Lemma finish_land_shield self platform jump_mult platforms b :
  (finish (land platform jump_mult (set_shield_active b self)) platforms).1.1
  = set_shield_active b (finish (land platform jump_mult self) platforms).1.1
  ∧ (finish (land platform jump_mult (set_shield_active b self)) platforms).2
    = (finish (land platform jump_mult self) platforms).2.
Proof.
  change (land platform jump_mult (set_shield_active b self))
    with (set_shield_active b (land platform jump_mult self)).
  unfold finish. rewrite clamp_shield. simpl.
  assert (Ht : ∀ s, track_fall (set_shield_active b s) = set_shield_active b (track_fall s)).
  { intros s. unfold track_fall; simpl. by destruct (on_ground s). }
  rewrite Ht. done.
Qed.

Lemma lands_on_prefix self platforms i platform later :
  lands_on self platforms i platform →
  lands_on self (take (S i) platforms ++ later) i platform.
Proof.
  intros (Hi & Hl & Hfirst).
  assert (Hlen : (i < length (take (S i) platforms))%nat).
  { rewrite length_take_le; [lia|]. apply lookup_lt_Some in Hi. lia. }
  split; [|split; [exact Hl|]].
  - rewrite lookup_app_l by exact Hlen. rewrite lookup_take_lt by lia. exact Hi.
  - intros j q Hj Hq. rewrite lookup_app_l in Hq by lia.
    rewrite lookup_take_lt in Hq by lia. by apply (Hfirst j q).
Qed.

Lemma lands_on_normal self platforms i platform :
  lands_on self platforms i platform →
  lands_on self (<[i := normal platform]> platforms) i (normal platform).
Proof.
  intros (Hi & Hl & Hfirst). split; [|split; [exact Hl|]].
  - apply list_lookup_insert_eq. by apply lookup_lt_Some in Hi.
  - intros j q Hj Hq. rewrite list_lookup_insert_ne in Hq by lia. by apply (Hfirst j q).
Qed.

(** C1. In a tick that gets past the position update, when the falling
    player's first landing platform is deadly, the
    shield is off and Invincibility is not in the (already decremented)
    upgrade map, [update] returns True with the player exactly as the
    collision block found it and the platforms as they were: not snapped, no
    impulse, not on the ground, no platform flagged, not clamped, fall timer
    as before the tick.  The platforms after that one play no part. *)
Theorem deadly_landing_kills self platforms gravity_mult jump_mult i platform :
  completes self gravity_mult →
  (0 <? vel_y (before_collision self gravity_mult))%float = true →
  lands_on (before_collision self gravity_mult) platforms i platform →
  Platform.deadly platform = true →
  shield_active self = false →
  contains "Invincibility" (active_upgrades (before_collision self gravity_mult)) = false →
  update self platforms gravity_mult jump_mult
    = (before_collision self gravity_mult, platforms, true)
  ∧ (∀ later,
       update self (take (S i) platforms ++ later) gravity_mult jump_mult
       = (before_collision self gravity_mult, take (S i) platforms ++ later, true))
  ∧ on_ground (before_collision self gravity_mult) = false
  ∧ fall_time (before_collision self gravity_mult) = fall_time self
  ∧ vel_y (before_collision self gravity_mult)
    = (vel_y self + GRAVITY * effective_gravity self gravity_mult)%float.
Proof.
  intros _ Hvy Hland Hd Hs Hinv.
  destruct (before_collision_fields self gravity_mult) as (Hsh & Hft & Hog & Hv).
  assert (Hall : ∀ ps, lands_on (before_collision self gravity_mult) ps i platform →
            update self ps gravity_mult jump_mult
            = (before_collision self gravity_mult, ps, true)).
  { intros ps Hps. unfold update. rewrite Hvy, (resolve_lands_on _ _ _ _ _ Hps).
    by rewrite Hd, Hsh, Hs, Hinv. }
  split; [by apply Hall|]. split; [|done].
  intros later. by apply Hall, lands_on_prefix.
Qed.

(** C2. In a tick that gets past the position update, when the falling
    player's first landing platform is deadly and the
    shield is on, or the shield is off and Invincibility is in the (already
    decremented) upgrade map, the player bounces: bottom on the platform top,
    vertical velocity PLAYER_JUMP times the jump multiplier, fall timer 0, on
    the ground, shield off afterwards, upgrade map and platforms as they were.
    The player and the returned flag are those of the same tick on a Normal
    platform in that place, but for the cleared shield. *)
Theorem protected_deadly_landing self platforms gravity_mult jump_mult i platform :
  completes self gravity_mult →
  (0 <? vel_y (before_collision self gravity_mult))%float = true →
  lands_on (before_collision self gravity_mult) platforms i platform →
  Platform.deadly platform = true →
  shield_active self = true
  ∨ (shield_active self = false
     ∧ contains "Invincibility" (active_upgrades (before_collision self gravity_mult)) = true) →
  ∃ self',
    update self platforms gravity_mult jump_mult
      = (self', platforms, SCREEN_HEIGHT + 200 <? Rect.top (rect self'))
    ∧ shield_active self' = false
    ∧ Rect.bottom (rect self') = Rect.top (Platform.rect platform)
    ∧ vel_y self' = (Z2F PLAYER_JUMP * effective_jump self jump_mult)%float
    ∧ fall_time self' = 0
    ∧ on_ground self' = true
    ∧ active_upgrades self' = active_upgrades (before_collision self gravity_mult)
    ∧ self' = set_shield_active false
                (update self (<[i := normal platform]> platforms) gravity_mult jump_mult).1.1
    ∧ (update self (<[i := normal platform]> platforms) gravity_mult jump_mult).2
      = (SCREEN_HEIGHT + 200 <? Rect.top (rect self')).
Proof.
  intros _ Hvy Hland Hd Hprot.
  destruct (before_collision_fields self gravity_mult) as (Hsh & _).
  assert (Hunf : ∀ ps, update self ps gravity_mult jump_mult
            = match resolve (before_collision self gravity_mult)
                      (effective_jump self jump_mult) ps
                      (spritecollide (before_collision self gravity_mult) ps) with
              | Died => (before_collision self gravity_mult, ps, true)
              | Landed self' ps' => finish self' ps'
              | Missed => finish (before_collision self gravity_mult) ps
              end).
  { intros ps. unfold update. by rewrite Hvy. }
  remember (before_collision self gravity_mult) as s eqn:Es.
  remember (effective_jump self jump_mult) as jm eqn:Ejm.
  assert (Hres : resolve s jm platforms (spritecollide s platforms)
                 = Landed (land platform jm (set_shield_active false s)) platforms).
  { rewrite (resolve_lands_on _ _ _ _ _ Hland), Hd, Hsh.
    destruct Hprot as [->|[Hs ->]]; [done|]. rewrite Hs.
    assert (Hid : set_shield_active false s = s).
    { rewrite <- Hs, <- Hsh. apply set_shield_active_same. }
    by rewrite Hid. }
  assert (Hnorm : update self (<[i := normal platform]> platforms) gravity_mult jump_mult
                  = finish (land platform jm s)
                      (<[i := Platform.set_will_break false (normal platform)]>
                         (<[i := normal platform]> platforms))).
  { by rewrite Hunf, (resolve_lands_on _ _ _ _ _ (lands_on_normal _ _ _ _ Hland)). }
  destruct (finish_land (set_shield_active false s) platform jm platforms)
    as (self' & Hfin & Hbot & Hv & Hft & Hog & Hshield & Hup).
  destruct (finish_land_shield s platform jm platforms false) as [Hp Hflag].
  exists self'. rewrite Hnorm, Hunf, Hres, Hfin.
  rewrite Hfin in Hp, Hflag. cbn [fst snd] in Hp, Hflag.
  split; [reflexivity|]. split; [exact Hshield|].
  split; [exact Hbot|]. split; [exact Hv|]. split; [exact Hft|]. split; [exact Hog|].
  split; [exact Hup|]. split.
  - rewrite (finish_player _ _ platforms). exact Hp.
  - rewrite (finish_flag _ _ platforms). symmetry. exact Hflag.
Qed.

(** C3. When the vertical velocity after gravity is [<= 0], [update] skips
    the collision block whatever the platforms are: the player keeps the
    integrated position and velocity, is not on the ground, its fall timer
    goes up by one, no platform changes, the shield is kept, and the returned
    flag is that of the two fall tests alone. *)
Theorem ascending_passes_through self platforms gravity_mult jump_mult :
  (vel_y (before_collision self gravity_mult) <=? 0)%float = true →
  ∃ self',
    update self platforms gravity_mult jump_mult = (self', platforms, fell self')
    ∧ self' = track_fall (clamp (before_collision self gravity_mult))
    ∧ on_ground self' = false
    ∧ vel_y self' = vel_y (before_collision self gravity_mult)
    ∧ Rect.y (rect self') = Rect.y (rect (before_collision self gravity_mult))
    ∧ fall_time self' = fall_time self + 1
    ∧ shield_active self' = shield_active self.
Proof.
  intros Hvy. apply float_nonpos_not_pos in Hvy.
  destruct (before_collision_fields self gravity_mult) as (Hsh & Hft & Hog & _).
  eexists. unfold update. rewrite Hvy. split; [reflexivity|]. split; [reflexivity|].
  set (s := before_collision self gravity_mult) in *.
  unfold track_fall, clamp; simpl.
  repeat match goal with |- context [if ?c then _ else _] => destruct c eqn:? end;
    simpl in *; repeat split; congruence.
Qed.

End Collision.

(** ** The collision block on sample states *)

Lemma deadly_landing_kills_witness :
  Player.update falling [far_platform; deadly_platform] 1%float 1%float
  = (Player.before_collision falling 1%float, [far_platform; deadly_platform], true).
Proof.
  apply (deadly_landing_kills falling [far_platform; deadly_platform] 1%float 1%float
           1%nat deadly_platform).
  - vm_compute. eexists. reflexivity.
  - vm_compute; reflexivity.
  - split; [reflexivity|]. split.
    + split; [vm_compute; reflexivity | vm_compute; discriminate].
    + intros j q Hj Hq. destruct j as [|j]; [|lia]. injection Hq as <-.
      intros [Hc _]. vm_compute in Hc. discriminate Hc.
  - reflexivity.
  - reflexivity.
  - vm_compute; reflexivity.
Defined.

Lemma protected_deadly_landing_witness :
  (∃ self',
     Player.update shielded [far_platform; deadly_platform] 1%float 1%float
       = (self', [far_platform; deadly_platform], false)
     ∧ Player.shield_active self' = false
     ∧ Player.on_ground self' = true
     ∧ Player.vel_y self' = (-19)%float
     ∧ Rect.y (Player.rect self') = 410)
  ∧ (∃ self',
       Player.update invincible [far_platform; deadly_platform] 1%float 1%float
         = (self', [far_platform; deadly_platform], false)
       ∧ Player.on_ground self' = true
       ∧ Player.active_upgrades self' !! "Invincibility"%string = Some 1).
Proof.
  split.
  - destruct (protected_deadly_landing shielded [far_platform; deadly_platform]
                1%float 1%float 1%nat deadly_platform) as (self' & Hu & Hs & _ & _ & _ & Hg & _).
    + vm_compute. eexists. reflexivity.
    + vm_compute; reflexivity.
    + split; [reflexivity|]. split.
      * split; [vm_compute; reflexivity | vm_compute; discriminate].
      * intros j q Hj Hq. destruct j as [|j]; [|lia]. injection Hq as <-.
        intros [Hc _]. vm_compute in Hc. discriminate Hc.
    + reflexivity.
    + left. reflexivity.
    + exists self'. rewrite Hu.
      assert (E : self' = (Player.update shielded [far_platform; deadly_platform]
                             1%float 1%float).1.1) by (by rewrite Hu).
      split; [|split; [exact Hs | split; [exact Hg|]]].
      * f_equal. rewrite E. vm_compute. reflexivity.
      * rewrite E. split; vm_compute; reflexivity.
  - destruct (protected_deadly_landing invincible [far_platform; deadly_platform]
                1%float 1%float 1%nat deadly_platform) as (self' & Hu & _ & _ & _ & _ & Hg & _).
    + vm_compute. eexists. reflexivity.
    + vm_compute; reflexivity.
    + split; [reflexivity|]. split.
      * split; [vm_compute; reflexivity | vm_compute; discriminate].
      * intros j q Hj Hq. destruct j as [|j]; [|lia]. injection Hq as <-.
        intros [Hc _]. vm_compute in Hc. discriminate Hc.
    + reflexivity.
    + right. split; vm_compute; reflexivity.
    + exists self'. rewrite Hu.
      assert (E : self' = (Player.update invincible [far_platform; deadly_platform]
                             1%float 1%float).1.1) by (by rewrite Hu).
      split; [|split; [exact Hg|]].
      * f_equal. rewrite E. vm_compute. reflexivity.
      * rewrite E. vm_compute. reflexivity.
Defined.

Lemma ascending_passes_through_witness :
  Rect.colliderect (Player.rect (Player.before_collision rising 1%float))
    (Platform.rect deadly_platform) = true
  ∧ ∃ self',
      Player.update rising [deadly_platform] 1%float 1%float = (self', [deadly_platform], false)
      ∧ Player.on_ground self' = false
      ∧ Player.vel_y self' = (-9.6)%float
      ∧ Rect.y (Player.rect self') = 415.
Proof.
  split; [vm_compute; reflexivity|].
  destruct (ascending_passes_through rising [deadly_platform] 1%float 1%float)
    as (self' & Hu & -> & Hg & _).
  - vm_compute; reflexivity.
  - eexists. split; [rewrite Hu; f_equal; vm_compute; reflexivity|].
    split; [exact Hg|]. split; vm_compute; reflexivity.
Defined.

Lemma upgrade_timers_witness :
  reachable (Main.collect speed_orb (Player.new 512 384))
  ∧ Player.active_upgrades
      (Player.update (Main.collect speed_orb (Player.new 512 384)) [Main.ground]
         1%float 1%float).1.1 !! "Speed Boost"%string = Some 899.
Proof.
  assert (Hr : reachable (Main.collect speed_orb (Player.new 512 384))).
  { apply (reach_collect 0 0 [RandInt 1] speed_orb []); [apply reach_new | reflexivity]. }
  split; [exact Hr|].
  destruct (upgrade_timers _ Hr) as (_ & Ht & _).
  rewrite Ht. vm_compute. reflexivity.
Defined.

(** ** The generator *)

Section Generator.
Import GameSettings Main.

Lemma resample_spaced last x tape x' rest :
  resample last x tape = Some (x', rest) → min_horizontal_gap ≤ Z.abs (x' - last).
Proof.
  revert x. induction tape as [|s tape IH]; intros x; simpl.
  - destruct (Z.ltb_spec (Z.abs (x - last)) min_horizontal_gap); [done|].
    intros [= <- <-]. done.
  - destruct (Z.ltb_spec (Z.abs (x - last)) min_horizontal_gap).
    + destruct (as_randint 0 (SCREEN_WIDTH - 120) s) as [n|]; simpl; [apply IH | done].
    + intros [= <- <-]. done.
Qed.

Lemma pick_x_spaced last tape x rest :
  pick_x last tape = Some (x, rest) → min_horizontal_gap ≤ Z.abs (x - last).
Proof.
  unfold pick_x. destruct (randint 0 (SCREEN_WIDTH - 120) tape) as [[x0 t]|]; simpl; [|done].
  apply resample_spaced.
Qed.

(** Rejection sampling can always end: whatever [last_x] is, one of the two
    ends of the range is far enough from it. *)
Lemma pick_x_possible last :
  ∃ x, pick_x last [RandInt x] = Some (x, []).
Proof.
  destruct (Z.le_gt_cases last 452).
  - exists 904. unfold pick_x. simpl.
    rewrite (proj2 (Z.ltb_ge _ _)); [done | unfold min_horizontal_gap; lia].
  - exists 0. unfold pick_x. simpl.
    rewrite (proj2 (Z.ltb_ge _ _)); [done | unfold min_horizontal_gap; lia].
Qed.

Lemma seed_one_adds st tape st' rest :
  seed_one st tape = Some (st', rest) → adds None st st'.
Proof.
  unfold seed_one. intros H.
  destruct (pick_x (last_x st) tape) as [[x t1]|] eqn:Hx; simpl in H; [|done].
  destruct (randint min_gap max_gap t1) as [[gap t2]|]; simpl in H; [|done].
  destruct (random t2) as [[r t3]|]; simpl in H; [|done].
  destruct (maybe_orb _ _ _ _ t3) as [[orbs' t4]|]; simpl in H; [|done].
  apply pick_x_spaced in Hx.
  injection H as <- <-. eexists. simpl. repeat split; [done | done].
Qed.

Lemma extend_one_adds gap_mult level st tape st' rest :
  extend_one gap_mult level st tape = Some (st', rest) → adds (Some level) st st'.
Proof.
  unfold extend_one. intros H.
  destruct (pick_x (last_x st) tape) as [[x t1]|] eqn:Hx; simpl in H; [|done].
  destruct (randint 0 (max_gap - min_gap) t1) as [[g t2]|]; simpl in H; [|done].
  destruct (int_of_float _) as [adjusted_gap|]; simpl in H; [|done].
  destruct (random t2) as [[r t3]|]; simpl in H; [|done].
  apply pick_x_spaced in Hx.
  destruct (Z.leb_spec 3 level) as [Hl|Hl]; simpl in H.
  - destruct (random t3) as [[d t4]|]; simpl in H; [|done].
    destruct (maybe_orb _ _ _ _ t4) as [[orbs' t5]|]; simpl in H; [|done].
    injection H as <- <-. eexists. simpl. repeat split; [done|]. eauto.
  - destruct (maybe_orb _ _ _ _ t3) as [[orbs' t4]|]; simpl in H; [|done].
    injection H as <- <-. eexists. simpl. repeat split; [done | done].
Qed.

(** [n] turns add [n] platforms, one after the other. *)
Lemma repeat_n_adds level body n :
  (∀ st tape st' rest, body st tape = Some (st', rest) → adds level st st') →
  ∀ st tape st' rest, repeat_n n body st tape = Some (st', rest) →
    ∃ new, platforms st' = platforms st ++ new ∧ length new = n
      ∧ Forall (λ p, Platform.deadly p = true → ∃ l, level = Some l ∧ 3 ≤ l) new.
Proof.
  intros Hbody. induction n as [|n IH]; intros st tape st' rest; simpl.
  - intros [= <- <-]. exists []. by rewrite app_nil_r.
  - destruct (body st tape) as [[st1 t1]|] eqn:E; simpl; [|done].
    intros H. apply IH in H as (new & Hp & Hlen & Hall).
    apply Hbody in E as (p & Hp1 & _ & _ & Hd).
    exists (p :: new). rewrite Hp, Hp1, <- app_assoc. simpl.
    split; [done|]. split; [by rewrite Hlen|]. by constructor.
Qed.

Lemma last_nonempty (y : Z) xs d d' : List.last (y :: xs) d = List.last (y :: xs) d'.
Proof.
  revert y. induction xs as [|z xs IH]; intros y; [done|].
  change (List.last (z :: xs) d = List.last (z :: xs) d'). apply IH.
Qed.

Lemma spaced_snoc prev xs x :
  spaced prev xs → min_horizontal_gap ≤ Z.abs (x - List.last xs prev) →
  spaced prev (xs ++ [x]).
Proof.
  revert prev. induction xs as [|y xs IH]; intros prev.
  - intros _ Hx. split; [exact Hx | exact I].
  - intros [Hy Hxs] Hx. split; [exact Hy|]. apply IH; [exact Hxs|].
    destruct xs as [|z xs]; [exact Hx|].
    rewrite (last_nonempty z xs y prev). exact Hx.
Qed.

Lemma adds_chain level st st' : adds level st st' → chain st → chain st'.
Proof.
  intros (p & Hp & Hx & Hgap & _) (Hne & Hsp & Hlast).
  assert (Hxs : generated_xs st' = generated_xs st ++ [last_x st']).
  { unfold generated_xs, generated. rewrite Hp.
    destruct (platforms st) as [|g ps]; [done|]. simpl.
    by rewrite !drop_0, fmap_app, <- Hx. }
  split; [|split].
  - rewrite Hp. by destruct (platforms st).
  - rewrite Hxs. apply spaced_snoc; [done|]. by rewrite <- Hlast.
  - rewrite Hxs. by rewrite last_last.
Qed.

Lemma repeat_n_chain level body n :
  (∀ st tape st' rest, body st tape = Some (st', rest) → adds level st st') →
  ∀ st tape st' rest, repeat_n n body st tape = Some (st', rest) → chain st → chain st'.
Proof.
  intros Hbody. induction n as [|n IH]; intros st tape st' rest; simpl.
  - by intros [= <- <-].
  - destruct (body st tape) as [[st1 t1]|] eqn:E; simpl; [|done].
    intros H Hc. eapply IH; [exact H|]. eapply adds_chain; [by eapply Hbody | done].
Qed.

Lemma chain_start : chain start.
Proof. by repeat split. Qed.

Lemma extend_all_chain batches st tape st' rest :
  extend_all batches st tape = Some (st', rest) → chain st → chain st'.
Proof.
  revert st tape. induction batches as [|[gap level] batches IH]; intros st tape; simpl.
  - by intros [= <- <-].
  - destruct (extend gap level st tape) as [[st1 t1]|] eqn:E; simpl; [|done].
    intros H Hc. eapply IH; [exact H|].
    eapply (repeat_n_chain (Some level)); [|exact E|exact Hc].
    intros ????. apply extend_one_adds.
Qed.

Lemma generate_chain batches tape st rest :
  generate batches tape = Some (st, rest) → chain st.
Proof.
  unfold generate. destruct (seed tape) as [[st0 t0]|] eqn:E; simpl; [|done].
  intros H. eapply extend_all_chain; [exact H|].
  eapply (repeat_n_chain None); [|exact E|exact chain_start].
  intros ????. apply seed_one_adds.
Qed.

Lemma spaced_consecutive prev xs i a b :
  spaced prev xs → xs !! i = Some a → xs !! S i = Some b →
  min_horizontal_gap ≤ Z.abs (b - a).
Proof.
  revert prev i. induction xs as [|x xs IH]; intros prev i; [done|].
  intros [_ Hsp] Ha Hb. destruct i as [|i].
  - injection Ha as ->. destruct xs as [|y xs]; [done|].
    injection Hb as ->. by destruct Hsp.
  - by apply (IH x i).
Qed.

End Generator.

Section Generated.
Import GameSettings Main.

Lemma generated_app st st' new :
  platforms st ≠ [] → platforms st' = platforms st ++ new →
  generated st' = generated st ++ new ∧ platforms st' ≠ [].
Proof.
  unfold generated. intros Hne ->. destruct (platforms st); [done|]. simpl.
  by rewrite !drop_0.
Qed.

Lemma deadly_only_late_seed made :
  length made = num_platforms →
  Forall (λ p, Platform.deadly p = true → ∃ l, @None Z = Some l ∧ 3 ≤ l) made →
  deadly_only_late [] made.
Proof.
  intros _ Hall k p Hk Hd. rewrite Forall_forall in Hall.
  destruct (Hall p) as (l & Hl & _); [by eapply list_elem_of_lookup_2 | done | done].
Qed.

Lemma deadly_only_late_batch batches made gap_mult level new :
  length made = (num_platforms + 5 * length batches)%nat →
  deadly_only_late batches made →
  length new = 5%nat →
  Forall (λ p, Platform.deadly p = true → ∃ l, Some level = Some l ∧ 3 ≤ l) new →
  deadly_only_late (batches ++ [(gap_mult, level)]) (made ++ new).
Proof.
  intros Hlen Hmade Hnew Hall k p Hk Hd.
  destruct (decide (k < length made)%nat) as [Hlt|Hge].
  - rewrite lookup_app_l in Hk by done.
    destruct (Hmade k p Hk Hd) as (Hk13 & g & l & Hb & Hl).
    split; [done|]. exists g, l. split; [|done]. by apply lookup_app_l_Some.
  - rewrite lookup_app_r in Hk by lia.
    pose proof (lookup_lt_Some _ _ _ Hk) as Hlt. rewrite Hnew in Hlt.
    rewrite Forall_forall in Hall.
    destruct (Hall p (list_elem_of_lookup_2 _ _ _ Hk) Hd) as (l & [= <-] & Hl).
    split; [lia|]. exists gap_mult, level. split; [|done].
    assert (Hq : ((k - num_platforms) / 5 = length batches)%nat).
    { symmetry. apply (Nat.div_unique _ _ _ (k - length made)); lia. }
    rewrite Hq. by apply list_lookup_middle.
Qed.

Lemma extend_all_made batches done st tape st' rest :
  extend_all batches st tape = Some (st', rest) →
  platforms st ≠ [] →
  length (generated st) = (num_platforms + 5 * length done)%nat →
  deadly_only_late done (generated st) →
  length (generated st') = (num_platforms + 5 * length (done ++ batches))%nat
  ∧ deadly_only_late (done ++ batches) (generated st').
Proof.
  revert done st tape.
  induction batches as [|[gap level] batches IH]; intros done st tape; simpl.
  - intros [= <- <-] _ Hlen Hd. by rewrite app_nil_r.
  - destruct (extend gap level st tape) as [[st1 t1]|] eqn:E; simpl; [|done].
    intros H Hne Hlen Hd.
    apply (repeat_n_adds (Some level)) in E as (new & Hp & Hnew & Hall);
      [|intros ????; apply extend_one_adds].
    destruct (generated_app st st1 new Hne Hp) as [Hg Hne1].
    replace (done ++ (gap, level) :: batches) with ((done ++ [(gap, level)]) ++ batches)
      by (by rewrite <- app_assoc).
    apply (IH _ _ _ H Hne1).
    + rewrite Hg, !length_app, Hlen, Hnew. simpl. lia.
    + rewrite Hg. by apply deadly_only_late_batch.
Qed.

Lemma generate_made batches tape st rest :
  generate batches tape = Some (st, rest) →
  length (generated st) = (num_platforms + 5 * length batches)%nat
  ∧ deadly_only_late batches (generated st).
Proof.
  unfold generate. destruct (seed tape) as [[st0 t0]|] eqn:E; simpl; [|done].
  intros H.
  apply (repeat_n_adds None) in E as (new & Hp & Hnew & Hall);
    [|intros ????; apply seed_one_adds].
  assert (Hne : platforms start ≠ []) by done.
  destruct (generated_app start st0 new Hne Hp) as [Hg Hne0].
  change (generated start) with (@nil Platform.t) in Hg. simpl in Hg.
  apply (extend_all_made batches [] st0 t0 st rest H Hne0).
  - by rewrite Hg, Hnew.
  - rewrite Hg. by apply deadly_only_late_seed.
Qed.

(** C7. Whenever the seeding followed by any batches has run, it has made
    13 platforms and 5 more per batch, and any two made one after the other
    (within the seeding, within a batch, or across their boundaries) are at
    least 200 pixels apart in x; the first is as far from the starting
    [last_x].  A run in which the sampling loop never ends makes nothing. *)
Theorem consecutive_platforms_spaced batches tape st rest :
  generate batches tape = Some (st, rest) →
  length (generated st) = (13 + 5 * length batches)%nat
  ∧ (∀ i a b, generated st !! i = Some a → generated st !! S i = Some b →
       200 ≤ Z.abs (Rect.x (Platform.rect b) - Rect.x (Platform.rect a)))
  ∧ (∀ a, generated st !! 0%nat = Some a →
       200 ≤ Z.abs (Rect.x (Platform.rect a) - SCREEN_WIDTH / 2)).
Proof.
  intros H. destruct (generate_made _ _ _ _ H) as [Hlen _].
  destruct (generate_chain _ _ _ _ H) as (_ & Hsp & _).
  split; [exact Hlen|]. split.
  - intros i a b Ha Hb.
    apply (spaced_consecutive (SCREEN_WIDTH / 2) (generated_xs st) i); [done| |];
      unfold generated_xs; rewrite list_lookup_fmap; [by rewrite Ha | by rewrite Hb].
  - intros a Ha. unfold generated_xs in Hsp.
    destruct (generated st) as [|p ps]; [done|]. injection Ha as ->.
    by destruct Hsp.
Qed.

(** C4, as the code has it.  A platform made by the seeding, or by a batch
    that ran below level 3, is not deadly, so it is never both breakable and
    deadly; from level 3 on the two flags are rolled independently. *)
Theorem deadly_only_from_level_3 batches tape st rest :
  generate batches tape = Some (st, rest) →
  ∀ k p, generated st !! k = Some p →
    ((k < 13)%nat
     ∨ ∃ gap_mult level,
         batches !! ((k - 13) / 5)%nat = Some (gap_mult, level) ∧ level < 3) →
    Platform.deadly p = false
    ∧ ¬ (Platform.breakable p = true ∧ Platform.deadly p = true).
Proof.
  intros H k p Hk Hearly. destruct (generate_made _ _ _ _ H) as [_ Hlate].
  assert (Hd : Platform.deadly p = false).
  { destruct (Platform.deadly p) eqn:Hd; [|done].
    destruct (Hlate k p Hk Hd) as (Hk13 & g & l & Hb & Hl).
    unfold num_platforms in *.
    destruct Hearly as [Hlt | (g' & l' & Hb' & Hl')]; [lia|].
    rewrite Hb in Hb'. injection Hb' as -> ->. lia. }
  split; [exact Hd|]. rewrite Hd. by intros [_ ?].
Qed.

End Generated.

Lemma consecutive_platforms_spaced_witness :
  ∃ st, Main.generate [(1%float, 0)] early_tape = Some (st, [])
    ∧ length (Main.generated st) = 18%nat
    ∧ generated_xs st
      = [100; 700; 100; 700; 100; 700; 100; 700; 100; 700; 100; 700; 100;
         700; 100; 700; 100; 700]
    ∧ ∀ i a b, Main.generated st !! i = Some a → Main.generated st !! S i = Some b →
        200 ≤ Z.abs (Rect.x (Platform.rect b) - Rect.x (Platform.rect a)).
Proof.
  destruct (Main.generate [(1%float, 0)] early_tape) as [[st rest]|] eqn:E;
    [|vm_compute in E; discriminate E].
  assert (Hrest : rest = []) by (vm_compute in E; by injection E as _ <-).
  subst rest. exists st.
  destruct (consecutive_platforms_spaced _ _ _ _ E) as (Hlen & Hsp & _).
  split; [reflexivity|]. split; [exact Hlen|]. split; [|exact Hsp].
  vm_compute in E. injection E as <-. vm_compute. reflexivity.
Defined.

Lemma deadly_only_from_level_3_witness :
  ∃ st, Main.generate [(1%float, 0)] early_tape = Some (st, [])
    ∧ (∃ p, Main.generated st !! 13%nat = Some p ∧ Platform.breakable p = true)
    ∧ ∀ k p, Main.generated st !! k = Some p → Platform.deadly p = false.
Proof.
  destruct (Main.generate [(1%float, 0)] early_tape) as [[st rest]|] eqn:E;
    [|vm_compute in E; discriminate E].
  assert (Hrest : rest = []) by (vm_compute in E; by injection E as _ <-).
  subst rest. exists st. split; [reflexivity|]. split.
  - vm_compute in E. injection E as <-. eexists. split; reflexivity.
  - intros k p Hk.
    destruct (generate_made _ _ _ _ E) as (Hlen & _).
    pose proof (lookup_lt_Some _ _ _ Hk) as Hlt. rewrite Hlen in Hlt. simpl in Hlt.
    unfold Main.num_platforms in Hlt.
    apply (deadly_only_from_level_3 _ _ _ _ E k p Hk).
    destruct (decide (k < 13)%nat) as [?|Hge]; [by left|]. right.
    exists 1%float, 0. split; [|lia].
    assert (Hq : ((k - 13) / 5 = 0)%nat) by (apply Nat.div_small; lia).
    by rewrite Hq.
Defined.

(** C4 as stated fails: at level 3 the first platform of the batch rolls
    0.25 for breakable and 0.05 for deadly, and is both. *)
Lemma breakable_and_deadly :
  ∃ st p, Main.generate [(1.09%float, 3)] late_tape = Some (st, [])
    ∧ Main.generated st !! 13%nat = Some p
    ∧ Platform.breakable p = true ∧ Platform.deadly p = true.
Proof.
  destruct (Main.generate [(1.09%float, 3)] late_tape) as [[st rest]|] eqn:E;
    [|vm_compute in E; discriminate E].
  vm_compute in E. injection E as <- <-.
  eexists _, _. split; [reflexivity|]. split; [reflexivity|]. split; reflexivity.
Qed.

(** ** High-score persistence *)

Section Persistence.

Lemma load_saved score f :
  load_high_score ReadWorks (save_high_score WriteWorks score f).1 = Return (PyInt score).
Proof. reflexivity. Qed.

(** What can escape [load_high_score]: the UnicodeDecodeError of a store
    that is not text, and the AttributeError of a decoded value that is not a
    dict. *)
Lemma load_raises io f e :
  load_high_score io f = Raise e →
  io = ReadWorks
  ∧ ((e = UnicodeDecodeError ∧ f = Some Undecodable)
     ∨ (e = AttributeError
        ∧ ∃ data, f = Some (Json data) ∧ ∀ items, data ≠ PyDict items)).
Proof.
  unfold load_high_score.
  destruct f as [[| |data]|]; destruct io; simpl; try done.
  - intros [= <-]. split; [done|]. by left.
  - destruct data; simpl; try done; intros [= <-];
      (split; [done|]; right; split; [done|]; eexists; split; [done | done]).
Qed.

Lemma game_file_shape f :
  game_file f →
  f = None ∨ f = Some Garbled
  ∨ ∃ score, 0 ≤ score ∧ f = Some (Json (PyDict [("high_score"%string, PyInt score)])).
Proof.
  induction 1 as [|io score f _ IH Hs]; [by left|].
  destruct io; simpl.
  - right. right. by exists score.
  - exact IH.
  - right. by left.
Qed.

(** The two functions together.  A save that succeeds followed by a load
    that succeeds returns the saved score; a load with no file returns 0; a
    save never raises, whatever the write does, and a failed open leaves the
    file as it was; a load whose read fails or whose text is not JSON returns
    0; a load lets through the UnicodeDecodeError of a store that is not text
    and the AttributeError of a store that decodes to something other than a
    dict, neither of which the game's own saves produce: on its own stores a
    load always returns a non-negative int. *)
Theorem high_score_round_trip :
  (∀ score f,
     load_high_score ReadWorks (save_high_score WriteWorks score f).1
     = Return (PyInt score))
  ∧ (∀ io, load_high_score io None = Return (PyInt 0))
  ∧ (∀ io score f, (save_high_score io score f).2 = Return tt)
  ∧ (∀ score f, (save_high_score OpenFails score f).1 = f)
  ∧ (∀ f, load_high_score ReadFails f = Return (PyInt 0))
  ∧ (∀ io, load_high_score io (Some Garbled) = Return (PyInt 0))
  ∧ (∀ io f e, load_high_score io f = Raise e →
       io = ReadWorks
       ∧ ((e = UnicodeDecodeError ∧ f = Some Undecodable)
          ∨ (e = AttributeError
             ∧ ∃ data, f = Some (Json data) ∧ ∀ items, data ≠ PyDict items)))
  ∧ (∀ f, game_file f → ∀ io, ∃ n, 0 ≤ n ∧ load_high_score io f = Return (PyInt n)).
Proof.
  split; [exact load_saved|].
  split; [by intros []|].
  split; [by intros [] ??|].
  split; [done|].
  split; [by intros [[| |?]|]|].
  split; [by intros []|].
  split; [exact load_raises|].
  intros f Hf io.
  destruct (game_file_shape f Hf) as [->|[->|(score & Hs & ->)]].
  - exists 0. by destruct io.
  - exists 0. by destruct io.
  - destruct io; [by exists score | by exists 0].
Qed.

End Persistence.

(** C9.  Read failures are not all swallowed.  A store that holds the
    JSON text of a list, and a store whose bytes are not text, each make
    [load_high_score] raise (AttributeError from [data.get], UnicodeDecodeError
    from the read), where the sibling failures, text that is not JSON and a
    read the system refuses, are swallowed and give 0. *)
Theorem load_high_score_not_swallowed :
  load_high_score ReadWorks foreign_file = Raise AttributeError
  ∧ load_high_score ReadWorks binary_file = Raise UnicodeDecodeError
  ∧ load_high_score ReadWorks (Some Garbled) = Return (PyInt 0)
  ∧ load_high_score ReadFails foreign_file = Return (PyInt 0)
  ∧ load_high_score ReadFails binary_file = Return (PyInt 0).
Proof. repeat split. Qed.

(** A save whose open fails is lost without notice: the next load gives 0. *)
Example load_after_failed_save :
  (save_high_score OpenFails 5 None).2 = Return tt
  ∧ load_high_score ReadWorks (save_high_score OpenFails 5 None).1 = Return (PyInt 0).
Proof. split; reflexivity. Qed.

Lemma high_score_round_trip_witness :
  game_file (save_high_score WriteWorks 42 (save_high_score DumpFails 7 None).1).1
  ∧ load_high_score ReadWorks
      (save_high_score WriteWorks 42 (save_high_score DumpFails 7 None).1).1
    = Return (PyInt 42)
  ∧ ∃ n, 0 ≤ n
      ∧ load_high_score ReadWorks (save_high_score DumpFails 7 None).1 = Return (PyInt n).
Proof.
  assert (H7 : game_file (save_high_score DumpFails 7 None).1).
  { apply game_file_saved; [apply game_file_missing | lia]. }
  split; [apply game_file_saved; [exact H7 | lia]|].
  destruct high_score_round_trip as (Hrt & _ & _ & _ & _ & _ & _ & Hgame).
  split; [apply Hrt|]. exact (Hgame _ H7 ReadWorks).
Defined.

(** * Further properties *)

(** ** One call of [update] *)

Section Update.
Import GameSettings Player.

Lemma elem_of_spritecollide self platforms i platform :
  (i, platform) ∈ spritecollide self platforms ↔
  platforms !! i = Some platform
  ∧ Rect.colliderect (rect self) (Platform.rect platform) = true.
Proof.
  unfold spritecollide. rewrite list_elem_of_filter, elem_of_lookup_imap. simpl. split.
  - intros [Hc (j & q & [= -> ->] & Hl)]. done.
  - intros [Hl Hc]. split; [done|]. by exists i, platform.
Qed.

(** The loop over the hits, case by case. *)
Lemma resolve_spec self jump_mult platforms hits :
  match resolve self jump_mult platforms hits with
  | Landed self' platforms' =>
      ∃ i platform, (i, platform) ∈ hits
        ∧ Rect.bottom (rect self) ≤ Rect.bottom (Platform.rect platform)
        ∧ self' = land platform jump_mult
                    (set_shield_active (shield_active self && negb (Platform.deadly platform))
                       self)
        ∧ ((Platform.deadly platform = true ∧ platforms' = platforms
            ∧ (shield_active self = true
               ∨ contains "Invincibility" (active_upgrades self) = true))
           ∨ (Platform.deadly platform = false
              ∧ platforms'
                = <[i := Platform.set_will_break (Platform.breakable platform) platform]>
                    platforms))
  | Died =>
      ∃ i platform, (i, platform) ∈ hits
        ∧ Rect.bottom (rect self) ≤ Rect.bottom (Platform.rect platform)
        ∧ Platform.deadly platform = true
        ∧ shield_active self = false
        ∧ contains "Invincibility" (active_upgrades self) = false
  | Missed =>
      ∀ i platform, (i, platform) ∈ hits →
        ¬ Rect.bottom (rect self) ≤ Rect.bottom (Platform.rect platform)
  end.
Proof.
  induction hits as [|[i platform] hits IH]; simpl.
  - intros i platform Hin. by apply not_elem_of_nil in Hin.
  - destruct (Z.leb_spec (Rect.bottom (rect self)) (Rect.bottom (Platform.rect platform)))
      as [Hb|Hb].
    + assert (Hin : (i, platform) ∈ (i, platform) :: hits) by apply list_elem_of_here.
      destruct (Platform.deadly platform) eqn:Hd.
      * destruct (shield_active self) eqn:Hs.
        -- exists i, platform. rewrite Hd. auto 10.
        -- destruct (contains "Invincibility" (active_upgrades self)) eqn:Hi.
           ++ exists i, platform. rewrite Hd. simpl. rewrite <- Hs at 1.
              rewrite set_shield_active_same. auto 10.
           ++ exists i, platform. auto.
      * exists i, platform. rewrite Hd, andb_true_r, set_shield_active_same. auto 10.
    + destruct (resolve self jump_mult platforms hits) as [|s' ps'|].
      * destruct IH as (j & q & Hin & H). exists j, q. split; [|done].
        by apply list_elem_of_further.
      * destruct IH as (j & q & Hin & H). exists j, q. split; [|done].
        by apply list_elem_of_further.
      * intros j q [[= -> ->]|Hin]%elem_of_cons; [lia | by apply (IH j q)].
Qed.

(** The three ways [update] ends: killed by a deadly platform, bounced off a
    platform, or no landing at all. *)
Lemma update_cases self platforms gravity_mult jump_mult :
  (update self platforms gravity_mult jump_mult
     = (before_collision self gravity_mult, platforms, true)
   ∧ ∃ i platform, platforms !! i = Some platform ∧ Platform.deadly platform = true
       ∧ lands (before_collision self gravity_mult) platform
       ∧ shield_active self = false)
  ∨ (∃ i platform platforms',
       platforms !! i = Some platform
       ∧ lands (before_collision self gravity_mult) platform
       ∧ update self platforms gravity_mult jump_mult
         = finish (land platform (effective_jump self jump_mult)
                     (set_shield_active
                        (shield_active self && negb (Platform.deadly platform))
                        (before_collision self gravity_mult))) platforms'
       ∧ ((Platform.deadly platform = true ∧ platforms' = platforms)
          ∨ (Platform.deadly platform = false
             ∧ platforms'
               = <[i := Platform.set_will_break (Platform.breakable platform) platform]>
                   platforms)))
  ∨ update self platforms gravity_mult jump_mult
    = finish (before_collision self gravity_mult) platforms.
Proof.
  unfold update.
  destruct (before_collision_fields self gravity_mult) as (Hsh & _).
  remember (before_collision self gravity_mult) as s eqn:Es.
  remember (effective_jump self jump_mult) as jm eqn:Ejm.
  destruct (0 <? vel_y s)%float; [|by right; right].
  pose proof (resolve_spec s jm platforms (spritecollide s platforms)) as Ho.
  destruct (resolve s jm platforms (spritecollide s platforms)) as [|s' ps'|].
  - left. split; [done|]. destruct Ho as (i & q & Hin & Hb & Hd & Hs & _).
    apply elem_of_spritecollide in Hin as [Hl Hc]. exists i, q.
    rewrite <- Hsh. done.
  - right. left. destruct Ho as (i & q & Hin & Hb & -> & Hp).
    apply elem_of_spritecollide in Hin as [Hl Hc]. exists i, q, ps'.
    rewrite <- Hsh. repeat split; try done. destruct Hp as [(? & ? & _)|?]; auto.
  - by right; right.
Qed.

Lemma clamp_bounds self :
  0 ≤ Rect.w (rect self) ≤ SCREEN_WIDTH →
  0 ≤ Rect.left (rect (clamp self))
  ∧ Rect.right (rect (clamp self)) ≤ SCREEN_WIDTH
  ∧ Rect.w (rect (clamp self)) = Rect.w (rect self).
Proof.
  intros Hw. unfold clamp, Rect.left, Rect.right, Rect.set_left, Rect.set_right.
  destruct (Z.ltb_spec (Rect.x (rect self)) 0); simpl.
  - destruct (Z.ltb_spec SCREEN_WIDTH (0 + Rect.w (rect self))); simpl; lia.
  - destruct (Z.ltb_spec SCREEN_WIDTH (Rect.x (rect self) + Rect.w (rect self))); simpl; lia.
Qed.

Lemma track_fall_fields self :
  rect (track_fall self) = rect self
  ∧ vel_y (track_fall self) = vel_y self
  ∧ on_ground (track_fall self) = on_ground self
  ∧ shield_active (track_fall self) = shield_active self
  ∧ fall_time (track_fall self)
    = if on_ground self then fall_time self else fall_time self + 1.
Proof. unfold track_fall. destruct (on_ground self) eqn:E; simpl; by rewrite ?E. Qed.

Lemma before_collision_size self gravity_mult :
  Rect.w (rect (before_collision self gravity_mult)) = Rect.w (rect self)
  ∧ Rect.h (rect (before_collision self gravity_mult)) = Rect.h (rect self).
Proof.
  unfold before_collision, integrate, speed_boost; simpl.
  repeat match goal with |- context [if ?c then _ else _] => destruct c end; done.
Qed.

Lemma fell_spec self :
  fell self = true ↔ 210 < fall_time self ∨ SCREEN_HEIGHT + 200 < Rect.top (rect self).
Proof.
  unfold fell.
  destruct (Z.ltb_spec 210 (fall_time self)); [by intuition|].
  destruct (Z.ltb_spec (SCREEN_HEIGHT + 200) (Rect.top (rect self))); [by intuition|].
  split; [done | lia].
Qed.

Lemma update_solid_landing self platforms gravity_mult jump_mult i platform :
  (0 <? vel_y (before_collision self gravity_mult))%float = true →
  lands_on (before_collision self gravity_mult) platforms i platform →
  Platform.deadly platform = false →
  update self platforms gravity_mult jump_mult
  = finish (land platform (effective_jump self jump_mult)
              (before_collision self gravity_mult))
      (<[i := Platform.set_will_break (Platform.breakable platform) platform]> platforms).
Proof.
  intros Hvy Hland Hd. unfold update.
  by rewrite Hvy, (resolve_lands_on _ _ _ _ _ Hland), Hd.
Qed.

(** What [update] can do to the platforms. *)
Lemma update_platforms self platforms gravity_mult jump_mult :
  (update self platforms gravity_mult jump_mult).1.2 = platforms
  ∨ ∃ i platform,
      platforms !! i = Some platform
      ∧ Platform.deadly platform = false
      ∧ lands (before_collision self gravity_mult) platform
      ∧ on_ground (update self platforms gravity_mult jump_mult).1.1 = true
      ∧ (update self platforms gravity_mult jump_mult).1.2
        = <[i := Platform.set_will_break (Platform.breakable platform) platform]> platforms.
Proof.
  destruct (update_cases self platforms gravity_mult jump_mult)
    as [[-> _]|[(i & q & ps' & Hl & Hlands & -> & Hp)| ->]]; [by left| |by left].
  destruct Hp as [[_ ->]|[Hd ->]]; [by left|]. right. exists i, q.
  destruct (finish_land (set_shield_active (shield_active self && negb (Platform.deadly q))
                           (before_collision self gravity_mult)) q
              (effective_jump self jump_mult)
              (<[i := Platform.set_will_break (Platform.breakable q) q]> platforms))
    as (self' & -> & _ & _ & _ & Hog & _).
  done.
Qed.

Lemma update_platforms_same self platforms gravity_mult jump_mult :
  length (update self platforms gravity_mult jump_mult).1.2 = length platforms
  ∧ ∀ k a, platforms !! k = Some a →
      ∃ b, (update self platforms gravity_mult jump_mult).1.2 !! k = Some b
        ∧ same_but_flag a b.
Proof.
  destruct (update_platforms self platforms gravity_mult jump_mult)
    as [->|(i & q & Hl & _ & _ & _ & ->)].
  - split; [done|]. intros k a Hk. by exists a.
  - split; [apply length_insert|]. intros k a Hk.
    destruct (decide (k = i)) as [->|Hne].
    + rewrite Hl in Hk. injection Hk as <-.
      eexists. split; [apply list_lookup_insert_eq; by eapply lookup_lt_Some | done].
    + exists a. by rewrite list_lookup_insert_ne.
Qed.

(** [round_half_away] gives an integer within one half of the float. *)
Lemma round_half_away_nearest f z :
  round_half_away f = Some z →
  ∃ q, exact f = Some q
    ∧ (q - (1 # 2) <= inject_Z z)%Q ∧ (inject_Z z <= q + (1 # 2))%Q.
Proof.
  unfold round_half_away, exact.
  destruct (Prim2SF f) as [?|?| |s m e]; try done.
  - intros [= <-]. exists 0%Q. done.
  - intros [= <-].
    destruct (Z.leb_spec 0 e) as [He|He].
    + eexists. split; [done|].
      destruct s; unfold Qle, Qminus, Qplus, Qopp, inject_Z; simpl; split; lia.
    + assert (Hd : 0 < 2 ^ (- e)) by (apply Z.pow_pos_nonneg; lia).
      set (d := 2 ^ (- e)) in *.
      pose proof (Z.div_mod (2 * Z.pos m + d) (2 * d) ltac:(lia)) as Hdm.
      pose proof (Z.mod_pos_bound (2 * Z.pos m + d) (2 * d) ltac:(lia)) as Hb.
      set (a := (2 * Z.pos m + d) / (2 * d)) in *.
      eexists. split; [done|].
      assert (Hp : Z.pos (Z.to_pos d) = d) by (apply Z2Pos.id; lia).
      destruct s; unfold Qle, Qminus, Qplus, Qopp, inject_Z; simpl; rewrite ?Hp;
        split; nia.
Qed.

Lemma to_rect_int_nearest f z :
  to_rect_int f = Some z →
  INT_MIN ≤ z ≤ INT_MAX
  ∧ ∃ q, exact f = Some q
      ∧ (q - (1 # 2) <= inject_Z z)%Q ∧ (inject_Z z <= q + (1 # 2))%Q.
Proof.
  unfold to_rect_int. intros H.
  apply bind_Some in H as (z' & Hr & H).
  destruct (Z.leb_spec INT_MIN z'); simpl in H; [|done].
  destruct (Z.leb_spec z' INT_MAX); simpl in H; [|done].
  injection H as <-. split; [lia|]. by apply round_half_away_nearest.
Qed.

(** X1.  A landing on a platform that is not deadly, in a tick that gets
    past the position update: the player is put on its top and thrown up with
    PLAYER_JUMP times the jump multiplier (with Jump Boost among the upgrades
    at the start of the call, times the multiplier times 1.3), its fall timer is 0, the shield and the timers are
    as the collision block found them, and the platform's [will_break] becomes
    its [breakable]: a breakable platform is marked, the others are not. *)
Theorem solid_landing self platforms gravity_mult jump_mult i platform :
  completes self gravity_mult →
  (0 <? vel_y (before_collision self gravity_mult))%float = true →
  lands_on (before_collision self gravity_mult) platforms i platform →
  Platform.deadly platform = false →
  ∃ self',
    update self platforms gravity_mult jump_mult
      = (self',
         <[i := Platform.set_will_break (Platform.breakable platform) platform]> platforms,
         SCREEN_HEIGHT + 200 <? Rect.top (rect self'))
    ∧ Rect.bottom (rect self') = Rect.top (Platform.rect platform)
    ∧ vel_y self'
      = (Z2F PLAYER_JUMP
         * (if contains "Jump Boost" (active_upgrades self)
            then jump_mult * 1.3 else jump_mult))%float
    ∧ fall_time self' = 0
    ∧ on_ground self' = true
    ∧ shield_active self' = shield_active self
    ∧ active_upgrades self' = tick_upgrades (active_upgrades self).
Proof.
  intros _ Hvy Hland Hd.
  destruct (before_collision_fields self gravity_mult) as (Hsh & _).
  pose proof (before_collision_upgrades self gravity_mult) as Hup.
  pose proof (update_solid_landing _ _ _ jump_mult _ _ Hvy Hland Hd) as Hu.
  destruct (finish_land (before_collision self gravity_mult) platform
              (effective_jump self jump_mult)
              (<[i := Platform.set_will_break (Platform.breakable platform) platform]>
                 platforms))
    as (self' & Hfin & Hb & Hv & Hft & Hog & Hs & Ha).
  exists self'. rewrite Hu, Hfin, Hs, Ha, Hsh, Hup. done.
Qed.

(** X2.  [update] never adds, removes or moves a platform: either the group is
    as it was, or exactly one platform, one the player landed on and that is
    not deadly, has had [will_break] set to its [breakable]. *)
Theorem update_keeps_platforms self platforms gravity_mult jump_mult :
  ((update self platforms gravity_mult jump_mult).1.2 = platforms
   ∨ ∃ i platform,
       platforms !! i = Some platform
       ∧ Platform.deadly platform = false
       ∧ lands (before_collision self gravity_mult) platform
       ∧ on_ground (update self platforms gravity_mult jump_mult).1.1 = true
       ∧ (update self platforms gravity_mult jump_mult).1.2
         = <[i := Platform.set_will_break (Platform.breakable platform) platform]> platforms)
  ∧ length (update self platforms gravity_mult jump_mult).1.2 = length platforms
  ∧ ∀ k a, platforms !! k = Some a →
      ∃ b, (update self platforms gravity_mult jump_mult).1.2 !! k = Some b
        ∧ same_but_flag a b.
Proof.
  split; [apply update_platforms | apply update_platforms_same].
Qed.

(** X3.  [update] never turns the shield on, and turns it off only in a landing
    on a deadly platform, which the player survives on the platform. *)
Theorem shield_spent_on_deadly_only self platforms gravity_mult jump_mult :
  (shield_active (update self platforms gravity_mult jump_mult).1.1 = true →
   shield_active self = true)
  ∧ (shield_active self = true →
     shield_active (update self platforms gravity_mult jump_mult).1.1 = false →
     ∃ i platform,
       platforms !! i = Some platform
       ∧ Platform.deadly platform = true
       ∧ lands (before_collision self gravity_mult) platform
       ∧ on_ground (update self platforms gravity_mult jump_mult).1.1 = true
       ∧ (update self platforms gravity_mult jump_mult).2
         = (SCREEN_HEIGHT + 200
            <? Rect.top (rect (update self platforms gravity_mult jump_mult).1.1))).
Proof.
  destruct (before_collision_fields self gravity_mult) as (Hsh & _).
  destruct (update_cases self platforms gravity_mult jump_mult)
    as [[-> _]|[(i & q & ps' & Hl & Hlands & -> & Hp)| ->]].
  - cbn [fst snd]. rewrite Hsh. split; [done | congruence].
  - destruct (finish_land (set_shield_active (shield_active self && negb (Platform.deadly q))
                             (before_collision self gravity_mult)) q
                (effective_jump self jump_mult) ps')
      as (self' & -> & _ & _ & _ & Hog & Hs & _).
    cbn [fst snd] in *. rewrite Hs. cbn [shield_active set_shield_active]. split.
    + by intros [? _]%andb_true_iff.
    + intros -> Hq. simpl in Hq. apply negb_false_iff in Hq. by exists i, q.
  - destruct (clamp_fields (before_collision self gravity_mult))
      as (_ & _ & _ & _ & _ & Hc & _).
    destruct (track_fall_fields (clamp (before_collision self gravity_mult)))
      as (_ & _ & _ & Ht & _).
    unfold finish. cbn [fst snd]. rewrite Ht, Hc, Hsh. split; [done | congruence].
Qed.

(** X4.  When [update] returns False the player is inside the screen
    horizontally, has fallen for at most 210 frames and its top is at most
    200 pixels below the bottom of the screen. *)
Theorem survivor_in_bounds self platforms gravity_mult jump_mult :
  0 ≤ Rect.w (rect self) ≤ SCREEN_WIDTH →
  (update self platforms gravity_mult jump_mult).2 = false →
  0 ≤ Rect.left (rect (update self platforms gravity_mult jump_mult).1.1)
  ∧ Rect.right (rect (update self platforms gravity_mult jump_mult).1.1) ≤ SCREEN_WIDTH
  ∧ fall_time (update self platforms gravity_mult jump_mult).1.1 ≤ 210
  ∧ Rect.top (rect (update self platforms gravity_mult jump_mult).1.1) ≤ SCREEN_HEIGHT + 200.
Proof.
  intros Hw.
  destruct (before_collision_size self gravity_mult) as [Hbw _].
  assert (Hfin : ∀ s ps, Rect.w (rect s) = Rect.w (rect self) →
            (finish s ps).2 = false →
            0 ≤ Rect.left (rect (finish s ps).1.1)
            ∧ Rect.right (rect (finish s ps).1.1) ≤ SCREEN_WIDTH
            ∧ fall_time (finish s ps).1.1 ≤ 210
            ∧ Rect.top (rect (finish s ps).1.1) ≤ SCREEN_HEIGHT + 200).
  { intros s ps Hs Hf. unfold finish in *. simpl in *.
    destruct (track_fall_fields (clamp s)) as (Hr & _).
    destruct (clamp_bounds s) as (Hl & Hri & _); [by rewrite Hs|].
    rewrite Hr.
    assert (Hn : ¬ (210 < fall_time (track_fall (clamp s))
                    ∨ SCREEN_HEIGHT + 200 < Rect.top (rect (track_fall (clamp s))))).
    { rewrite <- fell_spec. by rewrite Hf. }
    rewrite Hr in Hn. lia. }
  destruct (update_cases self platforms gravity_mult jump_mult)
    as [[-> _]|[(i & q & ps' & Hl & Hlands & -> & Hp)| ->]].
  - done.
  - apply Hfin. simpl. exact Hbw.
  - apply Hfin. exact Hbw.
Qed.

Lemma clamp_x self :
  0 ≤ Rect.w (rect self) ≤ SCREEN_WIDTH →
  Rect.x (rect (clamp self))
  = Z.max 0 (Z.min (SCREEN_WIDTH - Rect.w (rect self)) (Rect.x (rect self))).
Proof.
  intros Hw. unfold clamp, Rect.left, Rect.right, Rect.set_left, Rect.set_right.
  destruct (Z.ltb_spec (Rect.x (rect self)) 0); simpl.
  - destruct (Z.ltb_spec SCREEN_WIDTH (0 + Rect.w (rect self))); simpl; lia.
  - destruct (Z.ltb_spec SCREEN_WIDTH (Rect.x (rect self) + Rect.w (rect self))); simpl; lia.
Qed.

Lemma before_collision_position self gravity_mult :
  Rect.x (rect (before_collision self gravity_mult))
  = Rect.x (rect self) + vel_x (speed_boost self)
  ∧ Rect.y (rect (before_collision self gravity_mult))
    = rect_int (Z2F (Rect.y (rect self)) + vel_y (before_collision self gravity_mult))%float.
Proof.
  unfold before_collision, integrate, speed_boost; simpl.
  repeat match goal with |- context [if ?c then _ else _] => destruct c end; done.
Qed.

(** X5.  The horizontal move of a frame the player survives: the left edge
    goes by [vel_x], taken after the Speed Boost block, and is then brought
    back into the screen; a landing does not change it. *)
Theorem horizontal_step self platforms gravity_mult jump_mult :
  0 ≤ Rect.w (rect self) ≤ SCREEN_WIDTH →
  (update self platforms gravity_mult jump_mult).2 = false →
  Rect.x (rect (update self platforms gravity_mult jump_mult).1.1)
  = Z.max 0 (Z.min (SCREEN_WIDTH - Rect.w (rect self))
               (Rect.x (rect self) + vel_x (speed_boost self))).
Proof.
  intros Hw.
  destruct (before_collision_size self gravity_mult) as [Hbw _].
  destruct (before_collision_position self gravity_mult) as [Hbx _].
  assert (Hfin : ∀ s ps,
            Rect.w (rect s) = Rect.w (rect self) →
            Rect.x (rect s) = Rect.x (rect self) + vel_x (speed_boost self) →
            Rect.x (rect (finish s ps).1.1)
            = Z.max 0 (Z.min (SCREEN_WIDTH - Rect.w (rect self))
                         (Rect.x (rect self) + vel_x (speed_boost self)))).
  { intros s ps Hs Hx. unfold finish. cbn [fst snd].
    destruct (track_fall_fields (clamp s)) as (-> & _).
    rewrite clamp_x by (by rewrite Hs). by rewrite Hs, Hx. }
  destruct (update_cases self platforms gravity_mult jump_mult)
    as [[-> _]|[(i & q & ps' & Hl & Hlands & -> & Hp)| ->]].
  - done.
  - intros _. apply Hfin; simpl; [exact Hbw | exact Hbx].
  - intros _. apply Hfin; [exact Hbw | exact Hbx].
Qed.

(** X6.  A frame that ends with the player alive and off the ground was a
    free flight: no platform of the group was touched, the shield is as
    before, gravity times the multiplier (the multiplier halved under Gravity
    Reduction) was added to the vertical speed, and the new [rect.y] is an
    integer within one half of the float sum of the old [rect.y] and the new
    speed: the sum is rounded to a nearest integer, not cut. *)
Theorem free_flight self platforms gravity_mult jump_mult :
  completes self gravity_mult →
  on_ground (update self platforms gravity_mult jump_mult).1.1 = false →
  (update self platforms gravity_mult jump_mult).2 = false →
  (update self platforms gravity_mult jump_mult).1.2 = platforms
  ∧ shield_active (update self platforms gravity_mult jump_mult).1.1 = shield_active self
  ∧ vel_y (update self platforms gravity_mult jump_mult).1.1
    = (vel_y self
       + GRAVITY * (if contains "Gravity Reduction" (active_upgrades self)
                    then gravity_mult * 0.5 else gravity_mult))%float
  ∧ INT_MIN ≤ Rect.y (rect (update self platforms gravity_mult jump_mult).1.1) ≤ INT_MAX
  ∧ ∃ q,
      exact (Z2F (Rect.y (rect self))
             + vel_y (update self platforms gravity_mult jump_mult).1.1)%float = Some q
      ∧ (q - (1 # 2)
         <= inject_Z (Rect.y (rect (update self platforms gravity_mult jump_mult).1.1)))%Q
      ∧ (inject_Z (Rect.y (rect (update self platforms gravity_mult jump_mult).1.1))
         <= q + (1 # 2))%Q.
Proof.
  intros [z Hz].
  destruct (before_collision_fields self gravity_mult) as (Hsh & _ & _ & Hvy).
  destruct (before_collision_position self gravity_mult) as [_ Hby].
  assert (Hy : Rect.y (rect (before_collision self gravity_mult)) = z).
  { rewrite Hby. unfold rect_int. by rewrite Hz. }
  apply to_rect_int_nearest in Hz as (Hrange & q & Hq & Hlo & Hhi).
  destruct (update_cases self platforms gravity_mult jump_mult)
    as [[-> _]|[(i & p & ps' & Hl & Hlands & -> & Hp)| ->]].
  - done.
  - destruct (finish_land (set_shield_active (shield_active self && negb (Platform.deadly p))
                             (before_collision self gravity_mult)) p
                (effective_jump self jump_mult) ps')
      as (self' & -> & _ & _ & _ & Hg & _).
    cbn [fst snd]. congruence.
  - intros _ _. unfold finish. cbn [fst snd].
    destruct (track_fall_fields (clamp (before_collision self gravity_mult)))
      as (-> & -> & _ & -> & _).
    destruct (clamp_fields (before_collision self gravity_mult))
      as (-> & _ & -> & _ & _ & -> & _).
    rewrite Hy. split; [done|]. split; [done|]. split; [exact Hvy|].
    split; [exact Hrange|]. exists q. done.
Qed.

End Update.

Lemma solid_landing_witness :
  ∃ self',
    Player.update boosted [far_platform; normal deadly_platform] 1%float 1%float
      = (self', [far_platform; normal deadly_platform], false)
    ∧ Rect.bottom (Player.rect self') = 500
    ∧ Player.vel_y self' = (-24.7)%float
    ∧ Player.fall_time self' = 0.
Proof.
  destruct (solid_landing boosted [far_platform; normal deadly_platform]
              1%float 1%float 1%nat (normal deadly_platform))
    as (self' & Hu & Hb & Hv & Hft & _).
  - vm_compute. eexists. reflexivity.
  - vm_compute; reflexivity.
  - split; [reflexivity|]. split.
    + split; [vm_compute; reflexivity | vm_compute; discriminate].
    + intros j q Hj Hq. destruct j as [|j]; [|lia]. injection Hq as <-.
      intros [Hc _]. vm_compute in Hc. discriminate Hc.
  - reflexivity.
  - exists self'.
    assert (E : self' = (Player.update boosted [far_platform; normal deadly_platform]
                           1%float 1%float).1.1) by (by rewrite Hu).
    rewrite Hu. split; [|split; [exact Hb | split; [|exact Hft]]].
    + f_equal. rewrite E. vm_compute. reflexivity.
    + rewrite Hv. vm_compute. reflexivity.
Defined.

Lemma survivor_in_bounds_witness :
  0 ≤ Rect.left
        (Player.rect
           (Player.update (Player.set_vel_x (-7) (Player.new 3 384)) [Main.ground]
              1%float 1%float).1.1)
  ∧ Rect.x
      (Player.rect
         (Player.update (Player.set_vel_x (-7) (Player.new 3 384)) [Main.ground]
            1%float 1%float).1.1) = 0.
Proof.
  split; [|vm_compute; reflexivity].
  apply (survivor_in_bounds (Player.set_vel_x (-7) (Player.new 3 384)) [Main.ground]
           1%float 1%float); [vm_compute; split; discriminate | vm_compute; reflexivity].
Defined.

Lemma horizontal_step_witness :
  Rect.x
    (Player.rect
       (Player.update (with_upgrade "Speed Boost" 5 (Player.set_vel_x 7 (Player.new 930 384)))
          [Main.ground] 1%float 1%float).1.1) = 934.
Proof.
  etrans.
  - apply (horizontal_step
             (with_upgrade "Speed Boost" 5 (Player.set_vel_x 7 (Player.new 930 384)))
             [Main.ground] 1%float 1%float);
      [vm_compute; split; discriminate | vm_compute; reflexivity].
  - vm_compute. reflexivity.
Defined.

Lemma free_flight_witness :
  Player.vel_y (Player.update floating [far_platform] 1%float 1%float).1.1
  = 0.6000000000000001%float
  ∧ Rect.y (Player.rect (Player.update floating [far_platform] 1%float 1%float).1.1) = 385
  ∧ ∃ q, exact (Z2F 384 + 0.6000000000000001)%float = Some q
      ∧ (inject_Z 384 + (1 # 2) < q)%Q ∧ (q - (1 # 2) <= inject_Z 385)%Q.
Proof.
  destruct (free_flight floating [far_platform] 1%float 1%float)
    as (_ & _ & Hv & _ & q & Hq & Hlo & Hhi);
    [vm_compute; eexists; reflexivity | vm_compute; reflexivity | vm_compute; reflexivity |].
  assert (Ev : Player.vel_y (Player.update floating [far_platform] 1%float 1%float).1.1
               = 0.6000000000000001%float) by (rewrite Hv; vm_compute; reflexivity).
  assert (Ey : Rect.y (Player.rect (Player.update floating [far_platform] 1%float 1%float).1.1)
               = 385) by (vm_compute; reflexivity).
  rewrite Ev in Hq. rewrite Ey in Hlo.
  split; [exact Ev|]. split; [exact Ey|].
  exists q. split; [exact Hq|]. split; [|exact Hlo].
  vm_compute in Hq. injection Hq as <-. vm_compute. reflexivity.
Defined.

(** ** Several frames *)

Section Frames.
Import GameSettings Player.

Lemma handle_input_fields keys self :
  rect (handle_input keys self) = rect self
  ∧ vel_y (handle_input keys self) = vel_y self
  ∧ on_ground (handle_input keys self) = on_ground self
  ∧ fall_time (handle_input keys self) = fall_time self
  ∧ active_upgrades (handle_input keys self) = active_upgrades self
  ∧ shield_active (handle_input keys self) = shield_active self.
Proof. by rewrite handle_input_direction. Qed.

(** A frame without a landing and without death adds one to the fall
    timer. *)
Lemma airborne_frame self platforms gravity_mult jump_mult :
  on_ground (update self platforms gravity_mult jump_mult).1.1 = false →
  (update self platforms gravity_mult jump_mult).2 = false →
  fall_time (update self platforms gravity_mult jump_mult).1.1 = fall_time self + 1
  ∧ fall_time self + 1 ≤ 210.
Proof.
  destruct (before_collision_fields self gravity_mult) as (_ & Hft & Hog & _).
  destruct (update_cases self platforms gravity_mult jump_mult)
    as [[-> _]|[(i & q & ps' & Hl & Hlands & -> & Hp)| ->]].
  - done.
  - destruct (finish_land (set_shield_active (shield_active self && negb (Platform.deadly q))
                             (before_collision self gravity_mult)) q
                (effective_jump self jump_mult) ps')
      as (self' & -> & _ & _ & _ & Hg & _).
    cbn [fst snd]. congruence.
  - unfold finish. cbn [fst snd]. intros _ Hf.
    destruct (clamp_fields (before_collision self gravity_mult))
      as (_ & _ & _ & Hc & Hcf & _).
    destruct (track_fall_fields (clamp (before_collision self gravity_mult)))
      as (_ & _ & _ & _ & Ht).
    rewrite Hc, Hog, Hcf, Hft in Ht.
    assert (Hn : ¬ (210 < fall_time (track_fall (clamp (before_collision self gravity_mult)))
                    ∨ SCREEN_HEIGHT + 200
                      < Rect.top (rect (track_fall
                                          (clamp (before_collision self gravity_mult)))))).
    { rewrite <- fell_spec. by rewrite Hf. }
    rewrite Ht in *. lia.
Qed.

(** What one frame does to the fall timer and the upgrade timers. *)
Lemma frame_step_airborne frame p :
  on_ground (frame_step frame p).1.1 = false →
  (frame_step frame p).2 = false →
  fall_time (frame_step frame p).1.1 = fall_time p + 1 ∧ fall_time p + 1 ≤ 210.
Proof.
  destruct frame as [[[keys ps] gm] jm]. unfold frame_step. intros Hg Hf.
  destruct (airborne_frame _ _ _ _ Hg Hf) as [Hft Hle].
  destruct (handle_input_fields keys p) as (_ & _ & _ & Hin & _).
  rewrite Hin in Hft, Hle. done.
Qed.

Lemma frame_step_upgrades frame p :
  active_upgrades (frame_step frame p).1.1 = tick_upgrades (active_upgrades p).
Proof.
  destruct frame as [[[keys ps] gm] jm]. unfold frame_step.
  rewrite update_upgrades.
  by destruct (handle_input_fields keys p) as (_ & _ & _ & _ & -> & _).
Qed.

Lemma play_airborne frames p :
  frames ≠ [] →
  Forall (λ r, on_ground r.1 = false) (play frames p) →
  Exists (λ r, r.2 = true) (play frames p)
  ∨ fall_time p + Z.of_nat (length frames) ≤ 210.
Proof.
  revert p. induction frames as [|frame frames IH]; intros p Hne H; [done|].
  cbn [play] in *. apply Forall_cons in H as [Hg H]. cbn [fst snd] in Hg.
  destruct ((frame_step frame p).2) eqn:Hf.
  - left. by apply Exists_cons_hd.
  - destruct (frame_step_airborne _ _ Hg Hf) as [Hft Hle].
    destruct frames as [|f frames].
    + right. simpl. lia.
    + destruct (IH _ ltac:(done) H) as [He|Hb].
      * left. by apply Exists_cons_tl.
      * right. rewrite Hft in Hb. rewrite length_cons. lia.
Qed.

(** X7.  A player that stays off the ground for so many frames in a row that
    its fall timer would pass 210 has been reported dead by one of those
    calls of [update]. *)
Theorem long_fall_kills frames p :
  frames ≠ [] →
  210 < fall_time p + Z.of_nat (length frames) →
  Forall (λ r, on_ground r.1 = false) (play frames p) →
  Exists (λ r, r.2 = true) (play frames p).
Proof.
  intros Hne Hlong Hair. destruct (play_airborne frames p Hne Hair) as [H|H]; [done | lia].
Qed.

Lemma after_upgrades frames p name :
  active_upgrades (after frames p) !! name
  = match active_upgrades p !! name with
    | Some remaining =>
        if decide (frames = []) then Some remaining
        else if decide (remaining - Z.of_nat (length frames) ≤ 0) then None
        else Some (remaining - Z.of_nat (length frames))
    | None => None
    end.
Proof.
  revert p. induction frames as [|frame frames IH]; intros p.
  - simpl. by destruct (active_upgrades p !! name).
  - cbn [after]. rewrite IH, frame_step_upgrades, tick_upgrades_lookup.
    destruct (active_upgrades p !! name) as [v|]; [|done].
    rewrite (decide_False (P := _ :: frames = [])) by done.
    rewrite length_cons.
    destruct (decide (v - 1 ≤ 0)) as [Hv|Hv].
    + by rewrite decide_True by lia.
    + destruct (decide (frames = [])) as [->|Hf].
      * simpl. rewrite decide_False by lia. f_equal.
      * destruct (decide (v - 1 - Z.of_nat (length frames) ≤ 0)).
        -- by rewrite decide_True by lia.
        -- rewrite decide_False by lia. f_equal. lia.
Qed.

(** X8.  A timer that shows [remaining] frames is still there, lowered by the
    number of frames played, as long as fewer than [remaining] calls of
    [update] have been made, and is gone from then on: an upgrade picked up
    with 900 is seen by 899 later frames and removed by the 900th [update]. *)
Theorem upgrade_lasts frames p name remaining :
  active_upgrades p !! name = Some remaining →
  0 < remaining →
  active_upgrades (after frames p) !! name
  = if Z.of_nat (length frames) <? remaining
    then Some (remaining - Z.of_nat (length frames)) else None.
Proof.
  intros Hl Hpos. rewrite after_upgrades, Hl.
  destruct (decide (frames = [])) as [->|Hne].
  - simpl. rewrite (proj2 (Z.ltb_lt _ _)) by lia. f_equal. lia.
  - destruct (Z.ltb_spec (Z.of_nat (length frames)) remaining).
    + by rewrite decide_False by lia.
    + by rewrite decide_True by lia.
Qed.

Lemma reachable_bounded player :
  reachable player →
  map_Forall (λ _ remaining, 0 < remaining ≤ 900) (active_upgrades player).
Proof.
  induction 1 as [x y|keys p _ IH|p platforms gm jm _ IH|x y tape orb rest p _ IH Horb].
  - apply map_Forall_empty.
  - by rewrite handle_input_direction.
  - intros name v Hv. rewrite update_upgrades, tick_upgrades_lookup in Hv.
    destruct (active_upgrades p !! name) as [r|] eqn:E; [|done].
    specialize (IH name r E). simpl in IH.
    destruct (decide (r - 1 ≤ 0)); [done|]. injection Hv as <-. lia.
  - apply orb_upgrade in Horb as [_ Hd]. unfold Main.collect.
    destruct (String.eqb (Orb.name (Orb.upgrade_of orb)) "Shield"); [exact IH|].
    simpl. apply map_Forall_insert_2; [|exact IH]. rewrite Hd by done. lia.
Qed.

(** X9.  In every player state a run can show, each timer is between 1 and
    900, the fall timer is not negative, and the player keeps its 90 by 90
    rect. *)
Theorem reachable_player_invariant player :
  reachable player →
  map_Forall (λ _ remaining, 0 < remaining ≤ 900) (active_upgrades player)
  ∧ 0 ≤ fall_time player
  ∧ Rect.w (rect player) = PLAYER_WIDTH
  ∧ Rect.h (rect player) = PLAYER_HEIGHT.
Proof.
  intros Hr. split; [by apply reachable_bounded|].
  induction Hr as [x y|keys p _ IH|p platforms gm jm _ IH|x y tape orb rest p _ IH Horb].
  - done.
  - by rewrite handle_input_direction.
  - destruct IH as (Hft & Hw & Hh).
    destruct (before_collision_fields p gm) as (_ & Hbf & Hog & _).
    destruct (before_collision_size p gm) as [Hbw Hbh].
    assert (Hfin : ∀ s ps, 0 ≤ fall_time s → Rect.w (rect s) = PLAYER_WIDTH →
              Rect.h (rect s) = PLAYER_HEIGHT →
              0 ≤ fall_time (finish s ps).1.1
              ∧ Rect.w (rect (finish s ps).1.1) = PLAYER_WIDTH
              ∧ Rect.h (rect (finish s ps).1.1) = PLAYER_HEIGHT).
    { intros s ps Hs1 Hs2 Hs3. unfold finish. cbn [fst snd].
      destruct (track_fall_fields (clamp s)) as (-> & _ & _ & _ & ->).
      destruct (clamp_fields s) as (_ & -> & _ & _ & -> & _).
      destruct (clamp_bounds s) as (_ & _ & ->); [rewrite Hs2; done|].
      split; [destruct (on_ground (clamp s)); lia | done]. }
    destruct (update_cases p platforms gm jm)
      as [[-> _]|[(i & q & ps' & Hl & Hlands & -> & Hp)| ->]].
    + cbn [fst snd]. rewrite Hbf, Hbw, Hbh. done.
    + set (s := set_shield_active _ (before_collision p gm)).
      assert (Hs : fall_time (land q (effective_jump p jm) s) = 0
                   ∧ Rect.w (rect (land q (effective_jump p jm) s))
                     = Rect.w (rect (before_collision p gm))
                   ∧ Rect.h (rect (land q (effective_jump p jm) s))
                     = Rect.h (rect (before_collision p gm))) by done.
      destruct Hs as (Hs1 & Hs2 & Hs3).
      apply Hfin; [lia | congruence | congruence].
    + apply Hfin; congruence.
  - unfold Main.collect.
    by destruct (String.eqb (Orb.name (Orb.upgrade_of orb)) "Shield").
Qed.

End Frames.

Lemma Forall_forallb {A} (f : A → bool) (l : list A) :
  forallb f l = true → Forall (λ x, f x = true) l.
Proof.
  induction l as [|x l IH]; simpl; [constructor|].
  intros [Hx Hl]%andb_true_iff. constructor; auto.
Qed.

Lemma long_fall_kills_witness :
  Exists (λ r, r.2 = true) (play idle_frames (Player.new 512 384))
  ∧ (λ r, (Player.fall_time r.1, r.2)) <$> last (play idle_frames (Player.new 512 384))
    = Some (211, true).
Proof.
  split; [|vm_compute; reflexivity].
  apply long_fall_kills.
  - discriminate.
  - vm_compute; reflexivity.
  - eapply Forall_impl; [apply (Forall_forallb (λ r, negb (Player.on_ground r.1)))|].
    + vm_compute; reflexivity.
    + intros r Hr. by apply negb_true_iff.
Defined.

Lemma upgrade_lasts_witness :
  Player.active_upgrades
    (after (replicate 899 (held false false, [], 0%float, 1%float))
       (Main.collect speed_orb (Player.new 512 384))) !! "Speed Boost"%string = Some 1
  ∧ Player.active_upgrades
      (after (replicate 900 (held false false, [], 0%float, 1%float))
         (Main.collect speed_orb (Player.new 512 384))) !! "Speed Boost"%string = None.
Proof.
  split.
  - rewrite (upgrade_lasts _ _ "Speed Boost" 900); [|vm_compute; reflexivity | lia].
    rewrite length_replicate. reflexivity.
  - rewrite (upgrade_lasts _ _ "Speed Boost" 900); [|vm_compute; reflexivity | lia].
    rewrite length_replicate. reflexivity.
Defined.

Lemma reachable_player_invariant_witness :
  reachable (Main.collect speed_orb (Player.new 512 384))
  ∧ map_Forall (λ _ remaining, 0 < remaining ≤ 900)
      (Player.active_upgrades (Main.collect speed_orb (Player.new 512 384))).
Proof.
  assert (Hr : reachable (Main.collect speed_orb (Player.new 512 384))).
  { apply (reach_collect 0 0 [RandInt 1] speed_orb []); [apply reach_new | reflexivity]. }
  split; [exact Hr|]. exact (proj1 (reachable_player_invariant _ Hr)).
Defined.

(** ** The end of the frame: pruning and pickup *)

Section Pruning.
Import GameSettings.

Lemma filter_insert_dropped {A} (P : A → Prop) `{!∀ x, Decision (P x)} (l : list A) i a x :
  l !! i = Some a → ¬ P x → filter P (<[i := x]> l) = filter P (delete i l).
Proof.
  revert i. induction l as [|b l IH]; intros i Hi Hx; [done|].
  destruct i as [|i]; simpl.
  - by rewrite filter_cons_False.
  - rewrite !filter_cons. rewrite (IH i) by done. done.
Qed.

Lemma to_remove_false camera_y p :
  Game.to_remove camera_y p = false ↔
  Rect.top (Platform.rect p) ≤ camera_y + SCREEN_HEIGHT + 100 ∧ Platform.will_break p = false.
Proof.
  unfold Game.to_remove, Game.below_screen.
  destruct (Z.ltb_spec (camera_y + SCREEN_HEIGHT + 100) (Rect.top (Platform.rect p))).
  - split; [done | lia].
  - destruct (Platform.will_break p); split; try done. by intros [_ ?].
Qed.

(** X10.  Landing on a platform that is not deadly, in a tick that gets past
    the position update, and pruning afterwards: a
    breakable platform is gone from the group at the end of the frame in
    which it was landed on, any other landing leaves the group to the pruning
    alone. *)
Theorem broken_platform_removed self platforms gravity_mult jump_mult i platform camera_y :
  completes self gravity_mult →
  (0 <? Player.vel_y (Player.before_collision self gravity_mult))%float = true →
  lands_on (Player.before_collision self gravity_mult) platforms i platform →
  Platform.deadly platform = false →
  Forall (λ p, Platform.will_break p = false) platforms →
  Game.prune_platforms camera_y (Player.update self platforms gravity_mult jump_mult).1.2
  = Game.prune_platforms camera_y
      (if Platform.breakable platform then delete i platforms else platforms).
Proof.
  intros _ Hvy Hland Hd Hclean.
  rewrite (update_solid_landing _ _ _ jump_mult _ _ Hvy Hland Hd).
  unfold Player.finish. cbn [fst snd]. destruct Hland as (Hi & _).
  assert (Hw : Platform.will_break platform = false).
  { rewrite Forall_forall in Hclean. apply Hclean. by eapply list_elem_of_lookup_2. }
  destruct (Platform.breakable platform) eqn:Hb.
  - unfold Game.prune_platforms. apply (filter_insert_dropped _ _ _ platform); [done|].
    unfold Game.to_remove. simpl. by destruct (Game.below_screen _ _).
  - replace (Platform.set_will_break false platform) with platform;
      [by rewrite list_insert_id|].
    destruct platform; simpl in *. by subst.
Qed.

Lemma foldl_collect_rect collected player :
  Player.rect (foldl (λ p o, Main.collect o p) player collected) = Player.rect player.
Proof.
  revert player. induction collected as [|o l IH]; intros p; simpl; [done|].
  rewrite IH. unfold Main.collect. by destruct (String.eqb _ _).
Qed.

Lemma foldl_collect_shield collected player :
  Player.shield_active (foldl (λ p o, Main.collect o p) player collected)
  = Player.shield_active player
    || existsb (λ o, String.eqb (Orb.name (Orb.upgrade_of o)) "Shield") collected.
Proof.
  revert player. induction collected as [|o l IH]; intros p; simpl.
  - by rewrite orb_false_r.
  - rewrite IH. unfold Main.collect.
    destruct (String.eqb (Orb.name (Orb.upgrade_of o)) "Shield"); simpl; [|done].
    by rewrite orb_true_r.
Qed.

Lemma listed_duration orb :
  listed orb → String.eqb (Orb.name (Orb.upgrade_of orb)) "Shield" = false →
  Orb.duration (Orb.upgrade_of orb) = 900.
Proof.
  unfold listed, Orb.UPGRADES. intros H. set_unfold in H.
  destruct H as [->| [->| [->| [->| [->|[]]]]]]; simpl; done.
Qed.

Lemma foldl_collect_upgrades collected player name :
  Forall listed collected →
  Player.active_upgrades (foldl (λ p o, Main.collect o p) player collected) !! name
  = if picked name collected then Some 900 else Player.active_upgrades player !! name.
Proof.
  unfold picked. intros Hall. revert player.
  induction Hall as [|o l Ho _ IH]; intros p; simpl.
  - by rewrite andb_false_r.
  - rewrite IH. unfold Main.collect.
    destruct (String.eqb name "Shield") eqn:Hn; simpl.
    + apply String.eqb_eq in Hn as ->.
      destruct (String.eqb (Orb.name (Orb.upgrade_of o)) "Shield") eqn:Hs; [done|].
      simpl. rewrite lookup_insert_ne; [done|]. intros E. rewrite E in Hs.
      by rewrite String.eqb_refl in Hs.
    + destruct (String.eqb (Orb.name (Orb.upgrade_of o)) name) eqn:Hon; simpl.
      * apply String.eqb_eq in Hon as <-. rewrite Hn.
        destruct (existsb _ l); [done|]. simpl.
        by rewrite lookup_insert_eq, listed_duration.
      * assert (Hne : Orb.name (Orb.upgrade_of o) ≠ name).
        { intros E. rewrite E in Hon. by rewrite String.eqb_refl in Hon. }
        destruct (existsb _ l); [done|].
        destruct (String.eqb (Orb.name (Orb.upgrade_of o)) "Shield"); [done|].
        simpl. by rewrite lookup_insert_ne.
Qed.

(** X11.  The orb pickup of one frame.  The orbs left are those that do not touch
    the player, in their order; the player does not move; the shield is on
    afterwards exactly if it was on or a Shield orb was touched; every timed
    kind among the touched orbs stands at 900 whatever it held and however
    many orbs of that kind were touched, and the other timers are as before. *)
Theorem orb_pickup player orbs :
  Forall listed orbs →
  (Game.collect_orbs player orbs).2
    = filter (λ o, Rect.colliderect (Player.rect player) (Orb.rect o) ≠ true) orbs
  ∧ Forall (λ o, Rect.colliderect (Player.rect (Game.collect_orbs player orbs).1)
                   (Orb.rect o) = false) (Game.collect_orbs player orbs).2
  ∧ Player.rect (Game.collect_orbs player orbs).1 = Player.rect player
  ∧ Player.shield_active (Game.collect_orbs player orbs).1
    = Player.shield_active player
      || existsb (λ o, String.eqb (Orb.name (Orb.upgrade_of o)) "Shield")
           (Game.collected_orbs player orbs)
  ∧ ∀ name,
      Player.active_upgrades (Game.collect_orbs player orbs).1 !! name
      = if picked name (Game.collected_orbs player orbs) then Some 900
        else Player.active_upgrades player !! name.
Proof.
  intros Hall. unfold Game.collect_orbs. cbn [fst snd].
  split; [done|]. rewrite foldl_collect_rect. split; [|split; [done|split]].
  - apply Forall_forall. intros o [Hc _]%list_elem_of_filter.
    by destruct (Rect.colliderect (Player.rect player) (Orb.rect o)).
  - apply foldl_collect_shield.
  - intros name. apply foldl_collect_upgrades.
    unfold Game.collected_orbs. rewrite !Forall_forall in *.
    intros o [_ Ho]%list_elem_of_filter. by apply Hall.
Qed.

End Pruning.

(** ** One frame of the main loop *)

Section Frame.
Import GameSettings.

Lemma extend_adds gap_mult level g tape g' rest :
  Main.extend gap_mult level g tape = Some (g', rest) →
  ∃ new, Main.platforms g' = Main.platforms g ++ new ∧ length new = 5%nat
    ∧ Forall (λ p, Platform.deadly p = true → 3 ≤ level) new.
Proof.
  intros H. apply (repeat_n_adds (Some level)) in H as (new & Hp & Hlen & Hall);
    [|intros ????; apply extend_one_adds].
  exists new. split; [done|]. split; [done|].
  eapply Forall_impl; [exact Hall|]. intros p Hp' Hd.
  destruct (Hp' Hd) as (l & [= <-] & Hl). done.
Qed.

Lemma level_of_score score gravity_mult jump_mult gap_mult level :
  get_difficulty_modifiers score = Some (gravity_mult, jump_mult, gap_mult, level) →
  level = score / 500.
Proof.
  unfold get_difficulty_modifiers, SCORE_PER_DIFFICULTY.
  destruct (float_of_int (score / 500)); simpl; [|done]. by intros [= _ _ _ <-].
Qed.

Lemma after_update_platforms camera_y gap_mult level w updated tape w' over rest :
  Game.after_update camera_y gap_mult level w updated tape = Some (w', over, rest) →
  ∃ new,
    Forall (λ p, Platform.deadly p = true → 3 ≤ level) new
    ∧ Main.platforms (Game.gen w') = Game.prune_platforms camera_y (updated.1.2 ++ new)
    ∧ over = updated.2.
Proof.
  unfold Game.after_update. intros H.
  destruct (Game.climb _ _ _ _) as [[hy sc]|]; [|done].
  cbn [mbind option_bind] in H.
  destruct (Rect.top _ <? _).
  - destruct (Main.extend gap_mult level _ tape) as [[g1 t1]|] eqn:He; [|done].
    cbn [mbind option_bind] in H.
    apply extend_adds in He as (new & Hp & _ & Hall).
    cbn [Main.platforms Game.set_platforms] in Hp.
    injection H as <- <- <-.
    exists new. cbn [Main.platforms Game.gen Game.set_platforms Game.set_orbs].
    by rewrite Hp.
  - cbn [mbind option_bind] in H. injection H as <- <- <-.
    exists []. cbn [Main.platforms Game.gen Game.set_platforms Game.set_orbs].
    by rewrite app_nil_r.
Qed.

(** The platforms a frame leaves: those of [update], then the new batch if
    one was due, without the platforms the pruning drops. *)
Lemma tick_platforms keys w tape w' over rest :
  Game.tick keys w tape = Some (w', over, rest) →
  ∃ gravity_mult jump_mult gap_mult level new,
    get_difficulty_modifiers (Game.score w) = Some (gravity_mult, jump_mult, gap_mult, level)
    ∧ Forall (λ p, Platform.deadly p = true → 3 ≤ level) new
    ∧ Main.platforms (Game.gen w')
      = Game.prune_platforms
          (centery (Player.rect (Game.player w)) - SCREEN_HEIGHT / 2)
          ((Player.update (Player.handle_input keys (Game.player w))
              (Main.platforms (Game.gen w)) gravity_mult jump_mult).1.2 ++ new)
    ∧ over = (Player.update (Player.handle_input keys (Game.player w))
                (Main.platforms (Game.gen w)) gravity_mult jump_mult).2.
Proof.
  unfold Game.tick. intros H.
  apply bind_Some in H as ([[[gm jm] gap] level] & Hd & H).
  apply after_update_platforms in H as (new & Hall & Hp & Ho).
  destruct (handle_input_fields keys (Game.player w)) as (Hrect & _).
  rewrite Hrect in Hp.
  exists gm, jm, gap, level, new. done.
Qed.

Lemma after_update_record camera_y gap_mult level w updated tape w' over rest :
  Game.after_update camera_y gap_mult level w updated tape = Some (w', over, rest) →
  Game.initial_player_y w' = Game.initial_player_y w
  ∧ Game.highest_player_y w'
    = Z.min (Game.highest_player_y w) (Rect.y (Player.rect updated.1.1))
  ∧ (Game.highest_player_y w ≤ Rect.y (Player.rect updated.1.1) →
     Game.score w' = Game.score w)
  ∧ Game.current_difficulty w' = level
  ∧ Player.rect (Game.player w') = Player.rect updated.1.1.
Proof.
  unfold Game.after_update. intros H.
  assert (Hc : ∀ hy sc,
            Game.climb (Game.initial_player_y w) (Game.highest_player_y w) (Game.score w)
              (Rect.y (Player.rect updated.1.1)) = Some (hy, sc) →
            hy = Z.min (Game.highest_player_y w) (Rect.y (Player.rect updated.1.1))
            ∧ (Game.highest_player_y w ≤ Rect.y (Player.rect updated.1.1) →
               sc = Game.score w)).
  { intros hy sc. unfold Game.climb.
    destruct (Z.ltb_spec (Rect.y (Player.rect updated.1.1)) (Game.highest_player_y w)).
    - destruct (int_of_float _); simpl; [|done]. intros [= <- <-]. split; lia.
    - intros [= <- <-]. split; [lia | done]. }
  destruct (Game.climb _ _ _ _) as [[hy sc]|]; [|done].
  destruct (Hc hy sc eq_refl) as [-> Hsc].
  cbn [mbind option_bind] in H.
  destruct (Rect.top _ <? _).
  - destruct (Main.extend gap_mult level _ tape) as [[g1 t1]|]; [|done].
    cbn [mbind option_bind] in H. injection H as <- <- <-.
    cbn [Game.initial_player_y Game.highest_player_y Game.score Game.current_difficulty
         Game.player Game.collect_orbs fst snd].
    by rewrite foldl_collect_rect.
  - cbn [mbind option_bind] in H. injection H as <- <- <-.
    cbn [Game.initial_player_y Game.highest_player_y Game.score Game.current_difficulty
         Game.player Game.collect_orbs fst snd].
    by rewrite foldl_collect_rect.
Qed.

(** X12.  The bookkeeping of a frame.  The start height is kept; the height
    record becomes the smaller of the old record and the player's y after
    [update]; the score is left alone unless the record was beaten; and the
    level kept for the display is the one of the score the frame started
    with, the score divided by 500 and rounded down, whatever the frame did
    to the score afterwards. *)
Theorem height_record keys w tape w' over rest :
  Game.tick keys w tape = Some (w', over, rest) →
  Game.initial_player_y w' = Game.initial_player_y w
  ∧ Game.highest_player_y w'
    = Z.min (Game.highest_player_y w) (Rect.y (Player.rect (Game.player w')))
  ∧ (Game.highest_player_y w ≤ Rect.y (Player.rect (Game.player w')) →
     Game.score w' = Game.score w)
  ∧ Game.current_difficulty w' = Game.score w / 500.
Proof.
  unfold Game.tick. intros H.
  apply bind_Some in H as ([[[gm jm] gap] level] & Hd & H).
  apply level_of_score in Hd.
  apply after_update_record in H as (Hi & Hh & Hs & Hl & Hr).
  rewrite Hr, Hi, Hh, Hl, Hd. done.
Qed.

(** X13.  At the end of every frame no platform of the group is marked to break
    and none has its top more than 100 pixels below the bottom of the screen,
    the camera being that of the frame. *)
Theorem frame_leaves_no_marked_platform keys w tape w' over rest :
  Game.tick keys w tape = Some (w', over, rest) →
  Forall (λ p,
      Platform.will_break p = false
      ∧ Rect.top (Platform.rect p)
        ≤ centery (Player.rect (Game.player w)) - SCREEN_HEIGHT / 2 + SCREEN_HEIGHT + 100)
    (Main.platforms (Game.gen w')).
Proof.
  intros H.
  destruct (tick_platforms keys w tape w' over rest H)
    as (gm & jm & gap & l & new & _ & _ & -> & _).
  unfold Game.prune_platforms.
  generalize ((Player.update (Player.handle_input keys (Game.player w))
                 (Main.platforms (Game.gen w)) gm jm).1.2 ++ new).
  intros ps. apply Forall_forall. intros p Hp.
  apply list_elem_of_filter in Hp as [Hp _].
  apply to_remove_false in Hp. tauto.
Qed.

(** X14.  No deadly platform appears before the score reaches 1500: a run starts
    without one, and a frame that starts with a score from 0 to 1499 in a
    world without one ends in a world without one. *)
Theorem no_deadly_platform_before_1500 :
  (∀ tape w rest, Game.new_run tape = Some (w, rest) → harmless w ∧ Game.score w = 0)
  ∧ (∀ keys w tape w' over rest,
       Game.tick keys w tape = Some (w', over, rest) →
       0 ≤ Game.score w < 1500 → harmless w → harmless w').
Proof.
  split.
  - unfold Game.new_run. intros tape w rest H.
    destruct (Main.seed tape) as [[g t]|] eqn:Hs; simpl in H; [|done].
    injection H as <- <-. split; [|done]. unfold harmless. simpl.
    apply (repeat_n_adds None) in Hs as (new & -> & _ & Hall);
      [|intros ????; apply seed_one_adds].
    change (Main.platforms Main.start) with [Main.ground].
    apply Forall_app. split.
    { constructor. { vm_compute; reflexivity. } constructor. }
    eapply Forall_impl; [exact Hall|]. intros p Hp.
    simpl in Hp. destruct (Platform.deadly p); [|done].
    by destruct (Hp eq_refl) as (l & ? & _).
  - unfold harmless. intros keys w tape w' over rest H Hscore Hw.
    destruct (tick_platforms _ _ _ _ _ _ H) as (gm & jm & gap & l & new & Hd & Hnew & -> & _).
    apply level_of_score in Hd.
    assert (Hl : l < 3) by (subst l; apply Z.div_lt_upper_bound; lia).
    unfold Game.prune_platforms.
    apply Forall_forall. intros p Hp. apply list_elem_of_filter in Hp as [_ Hp].
    apply elem_of_app in Hp as [Hp|Hp].
    + apply list_elem_of_lookup in Hp as [k Hk].
      destruct (update_platforms_same (Player.handle_input keys (Game.player w))
                  (Main.platforms (Game.gen w)) gm jm) as (Hlen & Hsame).
      pose proof (lookup_lt_Some _ _ _ Hk) as Hlt. rewrite Hlen in Hlt.
      destruct (lookup_lt_is_Some_2 _ _ Hlt) as [a Ha].
      destruct (Hsame k a Ha) as (b & Hb & _ & _ & Hdb).
      rewrite Hk in Hb. injection Hb as <-. rewrite Hdb.
      rewrite Forall_forall in Hw. apply Hw. by eapply list_elem_of_lookup_2.
    + rewrite Forall_forall in Hnew. specialize (Hnew p Hp).
      destruct (Platform.deadly p); [|done]. specialize (Hnew eq_refl). lia.
Qed.

End Frame.

(** ** More on the generator *)

Section Stock.
Import GameSettings Main.

Lemma resample_range last x tape x' rest :
  0 ≤ x ≤ SCREEN_WIDTH - 120 →
  resample last x tape = Some (x', rest) → 0 ≤ x' ≤ SCREEN_WIDTH - 120.
Proof.
  revert x. induction tape as [|s tape IH]; intros x Hx; simpl.
  - destruct (Z.abs (x - last) <? min_horizontal_gap); [done|]. by intros [= <- <-].
  - destruct (Z.abs (x - last) <? min_horizontal_gap); [|by intros [= <- <-]].
    destruct s as [n|f]; simpl; [|done].
    destruct (Z.leb_spec 0 n); simpl; [|done].
    destruct (Z.leb_spec n (SCREEN_WIDTH - 120)); simpl; [|done].
    by apply IH.
Qed.

Lemma pick_x_range last tape x rest :
  pick_x last tape = Some (x, rest) → 0 ≤ x ≤ SCREEN_WIDTH - 120.
Proof.
  unfold pick_x, randint. destruct tape as [|s tape]; simpl; [done|].
  destruct s as [n|f]; simpl; [|done].
  destruct (Z.leb_spec 0 n); simpl; [|done].
  destruct (Z.leb_spec n (SCREEN_WIDTH - 120)); simpl; [|done].
  by apply resample_range.
Qed.

Lemma randint_range a b tape n rest :
  randint a b tape = Some (n, rest) → a ≤ n ≤ b.
Proof.
  unfold randint. destruct tape as [|s tape]; simpl; [done|].
  destruct s as [m|f]; simpl; [|done].
  destruct (Z.leb_spec a m); simpl; [|done].
  destruct (Z.leb_spec m b); simpl; [|done].
  intros [= <- <-]. lia.
Qed.

(** [maybe_orb] adds no orb, or one orb of a listed kind at the fixed offset
    from the platform's corner, and the latter never for a deadly platform. *)
Lemma maybe_orb_spec x y is_deadly orbs tape orbs' rest :
  maybe_orb x y is_deadly orbs tape = Some (orbs', rest) →
  orbs' = orbs
  ∨ (is_deadly = false
     ∧ ∃ u, u ∈ Orb.UPGRADES
         ∧ orbs' = orbs ++ [Orb.mk u (Rect.mk (x + 100) (y - 50) 40 40)]).
Proof.
  unfold maybe_orb. intros H.
  destruct (random tape) as [[r t]|]; simpl in H; [|done].
  destruct (r <? 0.1)%float; simpl in H; [|left; by injection H as <- <-].
  destruct is_deadly; simpl in H; [left; by injection H as <- <-|].
  unfold Orb.new in H.
  destruct (choice Orb.UPGRADES t) as [[u t']|] eqn:Hc; simpl in H; [|done].
  injection H as <- <-. right. split; [done|]. exists u. split; [|done].
  by eapply choice_elem_of.
Qed.

Lemma stocked_add st st' p :
  platforms st' = platforms st ++ [p] →
  shaped p →
  (orbs st' = orbs st ∨ ∃ o, floats_over o p ∧ orbs st' = orbs st ++ [o]) →
  stocked st → stocked st'.
Proof.
  intros Hp Hs Ho (Hne & Hshape & Horbs & Hlen).
  destruct (generated_app st st' [p] Hne Hp) as [Hg Hne'].
  assert (Hmono : Forall (λ o, ∃ q, q ∈ generated st' ∧ floats_over o q) (orbs st)).
  { eapply Forall_impl; [exact Horbs|]. intros o (q & Hq & Hf). exists q.
    rewrite Hg, elem_of_app. auto. }
  split; [exact Hne'|]. split; [|split].
  - rewrite Hg. apply Forall_app. split; [exact Hshape|]. by constructor.
  - destruct Ho as [->|(o & Hf & ->)]; [exact Hmono|].
    apply Forall_app. split; [exact Hmono|]. constructor; [|constructor].
    exists p. split; [|exact Hf]. rewrite Hg, elem_of_app. right. apply list_elem_of_here.
  - rewrite Hg, length_app. simpl.
    destruct Ho as [->|(o & Hf & ->)]; [lia|]. rewrite length_app. simpl. lia.
Qed.

Lemma shaped_new x y is_breakable is_deadly :
  0 ≤ x ≤ SCREEN_WIDTH - 120 → shaped (Platform.new x y 220 is_breakable is_deadly).
Proof. intros Hx. by repeat split; simpl; try lia. Qed.

Lemma floats_over_new u x y is_breakable :
  u ∈ Orb.UPGRADES →
  floats_over (Orb.mk u (Rect.mk (x + 100) (y - 50) 40 40))
    (Platform.new x y 220 is_breakable false).
Proof. intros Hu. by repeat split. Qed.

Lemma seed_one_stocked st tape st' rest :
  seed_one st tape = Some (st', rest) → stocked st → stocked st'.
Proof.
  unfold seed_one. intros H.
  destruct (pick_x (last_x st) tape) as [[x t1]|] eqn:Hx; simpl in H; [|done].
  destruct (randint min_gap max_gap t1) as [[gap t2]|]; simpl in H; [|done].
  destruct (random t2) as [[r t3]|]; simpl in H; [|done].
  destruct (maybe_orb _ _ _ _ t3) as [[orbs' t4]|] eqn:Ho; simpl in H; [|done].
  apply pick_x_range in Hx. apply maybe_orb_spec in Ho.
  injection H as <- <-. eapply stocked_add; simpl; [reflexivity| |].
  - by apply shaped_new.
  - destruct Ho as [->|(_ & u & Hu & ->)]; [by left|]. right.
    eexists. split; [|reflexivity]. by apply floats_over_new.
Qed.

Lemma extend_one_stocked gap_mult level st tape st' rest :
  extend_one gap_mult level st tape = Some (st', rest) → stocked st → stocked st'.
Proof.
  unfold extend_one. intros H.
  destruct (pick_x (last_x st) tape) as [[x t1]|] eqn:Hx; simpl in H; [|done].
  destruct (randint 0 (max_gap - min_gap) t1) as [[g t2]|]; simpl in H; [|done].
  destruct (int_of_float _) as [adjusted_gap|]; simpl in H; [|done].
  destruct (random t2) as [[r t3]|]; simpl in H; [|done].
  apply pick_x_range in Hx.
  destruct (3 <=? level); simpl in H.
  - destruct (random t3) as [[d t4]|]; simpl in H; [|done].
    destruct (maybe_orb _ _ _ _ t4) as [[orbs' t5]|] eqn:Ho; simpl in H; [|done].
    apply maybe_orb_spec in Ho.
    injection H as <- <-. eapply stocked_add; simpl; [reflexivity| |].
    + by apply shaped_new.
    + destruct Ho as [->|(Hd & u & Hu & ->)]; [by left|]. right.
      eexists. split; [|reflexivity]. rewrite Hd. by apply floats_over_new.
  - destruct (maybe_orb _ _ _ _ t3) as [[orbs' t4]|] eqn:Ho; simpl in H; [|done].
    apply maybe_orb_spec in Ho.
    injection H as <- <-. eapply stocked_add; simpl; [reflexivity| |].
    + by apply shaped_new.
    + destruct Ho as [->|(_ & u & Hu & ->)]; [by left|]. right.
      eexists. split; [|reflexivity]. by apply floats_over_new.
Qed.

Lemma repeat_n_invariant (P : gen → Prop) body n :
  (∀ st tape st' rest, body st tape = Some (st', rest) → P st → P st') →
  ∀ st tape st' rest, repeat_n n body st tape = Some (st', rest) → P st → P st'.
Proof.
  intros Hbody. induction n as [|n IH]; intros st tape st' rest; simpl.
  - by intros [= <- <-].
  - destruct (body st tape) as [[st1 t1]|] eqn:E; simpl; [|done].
    intros H Hc. eapply IH; [exact H|]. by eapply Hbody.
Qed.

Lemma generate_invariant (P : gen → Prop) :
  P start →
  (∀ st tape st' rest, seed_one st tape = Some (st', rest) → P st → P st') →
  (∀ gap_mult level st tape st' rest,
     extend_one gap_mult level st tape = Some (st', rest) → P st → P st') →
  ∀ batches tape st rest, generate batches tape = Some (st, rest) → P st.
Proof.
  intros Hstart Hseed Hext batches tape st rest. unfold generate.
  destruct (seed tape) as [[st0 t0]|] eqn:E; simpl; [|done].
  apply (repeat_n_invariant P) in E; [|exact Hseed|exact Hstart].
  revert st0 t0 E. induction batches as [|[gap level] batches IH]; intros st0 t0 E; simpl.
  - by intros [= <- <-].
  - destruct (extend gap level st0 t0) as [[st1 t1]|] eqn:E1; simpl; [|done].
    apply IH. eapply (repeat_n_invariant P); [|exact E1|exact E]. apply Hext.
Qed.

Lemma stocked_start : stocked start.
Proof. split; [done|]. split; [constructor|]. split; [constructor|]. simpl. lia. Qed.

(** X15.  Every platform the generator makes, in the seeding or in a batch, is
    220 wide and 15 high with its left edge between 0 and 904, so that its
    right edge can be up to 100 pixels beyond the right edge of the screen,
    and is not marked to break. *)
Theorem generated_platform_shape batches tape st rest :
  generate batches tape = Some (st, rest) →
  ∀ p, p ∈ generated st →
    0 ≤ Rect.left (Platform.rect p) ≤ 904
    ∧ Rect.right (Platform.rect p) ≤ SCREEN_WIDTH + 100
    ∧ Rect.w (Platform.rect p) = 220
    ∧ Rect.h (Platform.rect p) = 15
    ∧ Platform.will_break p = false.
Proof.
  intros H p Hp.
  destruct (generate_invariant stocked stocked_start seed_one_stocked extend_one_stocked
              _ _ _ _ H) as (_ & Hshape & _).
  rewrite Forall_forall in Hshape. destruct (Hshape p Hp) as (Hx & Hw & Hh & Hb).
  unfold Rect.left, Rect.right, SCREEN_WIDTH in *. repeat split; lia || done.
Qed.

(** X16.  Every orb the generator makes belongs to a generated platform that is
    not deadly: it is of one of the five listed kinds, 40 by 40, and sits 100
    to the right of and 50 above that platform's corner.  There are never
    more orbs than platforms. *)
Theorem orbs_on_safe_platforms batches tape st rest :
  generate batches tape = Some (st, rest) →
  (∀ o, o ∈ orbs st →
     Orb.upgrade_of o ∈ Orb.UPGRADES
     ∧ ∃ p, p ∈ generated st
         ∧ Platform.deadly p = false
         ∧ Orb.rect o
           = Rect.mk (Rect.x (Platform.rect p) + 100) (Rect.y (Platform.rect p) - 50) 40 40)
  ∧ (length (orbs st) ≤ length (generated st))%nat.
Proof.
  intros H.
  destruct (generate_invariant stocked stocked_start seed_one_stocked extend_one_stocked
              _ _ _ _ H) as (_ & _ & Horbs & Hlen).
  split; [|exact Hlen]. intros o Ho. rewrite Forall_forall in Horbs.
  destruct (Horbs o Ho) as (p & Hp & Hd & Hr & Hl). split; [exact Hl|]. by exists p.
Qed.

End Stock.

Section Heights.
Import GameSettings Main.

Lemma seed_one_height st tape st' rest :
  seed_one st tape = Some (st', rest) →
  ∃ gap p,
    min_gap ≤ gap ≤ max_gap
    ∧ platform_height st' = Z.max 100 (platform_height st - gap)
    ∧ highest_platform_y st' = platform_height st'
    ∧ platforms st' = platforms st ++ [p]
    ∧ Rect.y (Platform.rect p) = platform_height st'.
Proof.
  unfold seed_one. intros H.
  destruct (pick_x (last_x st) tape) as [[x t1]|]; simpl in H; [|done].
  destruct (randint min_gap max_gap t1) as [[gap t2]|] eqn:Hg; simpl in H; [|done].
  destruct (random t2) as [[r t3]|]; simpl in H; [|done].
  destruct (maybe_orb _ _ _ _ t3) as [[orbs' t4]|]; simpl in H; [|done].
  apply randint_range in Hg. injection H as <- <-. eexists gap, _. simpl.
  split; [exact Hg|]. split; [|done].
  destruct (Z.ltb_spec (platform_height st - gap) 100); lia.
Qed.

Lemma seeded_step k st tape st' rest :
  seed_one st tape = Some (st', rest) → seeded k st → seeded (S k) st'.
Proof.
  intros H (Hne & Hlen & Hhi & Hph & Hys & Hord).
  apply seed_one_height in H as (gap & p & Hgap & Hph' & Hhi' & Hp & Hy).
  destruct (generated_app st st' [p] Hne Hp) as [Hg Hne'].
  unfold min_gap, max_gap in Hgap.
  split; [exact Hne'|]. split; [by rewrite Hg, length_app, Hlen, Nat.add_1_r|].
  split; [exact Hhi'|]. split; [lia|]. split.
  - intros j q Hq. rewrite Hg in Hq.
    destruct (decide (j < k)%nat) as [Hlt|Hge].
    + rewrite lookup_app_l in Hq by lia. destruct (Hys j q Hq). lia.
    + rewrite lookup_app_r in Hq by lia.
      destruct (j - length (generated st))%nat as [|n] eqn:E; [|done].
      injection Hq as <-. assert (j = k) as -> by lia. lia.
  - intros j a b Ha Hb. rewrite Hg in Ha, Hb.
    destruct (decide (S j < k)%nat) as [Hlt|Hge].
    + rewrite lookup_app_l in Ha, Hb by lia. by apply (Hord j).
    + pose proof (lookup_lt_Some _ _ _ Hb) as Hlb. rewrite length_app in Hlb. simpl in Hlb.
      assert (S j = k) as Hj by lia.
      rewrite lookup_app_l in Ha by lia. rewrite lookup_app_r in Hb by lia.
      replace (S j - length (generated st))%nat with 0%nat in Hb by lia.
      injection Hb as <-. destruct (Hys j a Ha). lia.
Qed.

Lemma seeded_start : seeded 0 start.
Proof.
  split; [done|]. split; [done|]. split; [done|]. split; [by vm_compute|].
  change (generated start) with (@nil Platform.t).
  split; [intros j ? Hj | intros j ? ? Hj]; by rewrite lookup_nil in Hj.
Qed.

Lemma repeat_n_seeded n k st tape st' rest :
  repeat_n n seed_one st tape = Some (st', rest) → seeded k st → seeded (k + n) st'.
Proof.
  revert k st tape. induction n as [|n IH]; intros k st tape; simpl.
  - intros [= <- <-]. by rewrite Nat.add_0_r.
  - destruct (seed_one st tape) as [[st1 t1]|] eqn:E; simpl; [|done].
    intros H Hs. replace (k + S n)%nat with (S k + n)%nat by lia.
    eapply IH; [exact H|]. by eapply seeded_step.
Qed.

(** X17.  The heights of the 13 seeded platforms: each is between 100 and 508,
    none is lower on the screen than the one before it, and because the
    height is capped at 100 while each turn climbs at least 60, the eighth and
    all later ones are at exactly 100, where the seeding also leaves
    [highest_platform_y]. *)
Theorem seeded_heights tape st rest :
  seed tape = Some (st, rest) →
  length (generated st) = 13%nat
  ∧ highest_platform_y st = 100
  ∧ (∀ j p, generated st !! j = Some p →
       100 ≤ Rect.y (Platform.rect p) ≤ 508
       ∧ ((7 ≤ j)%nat → Rect.y (Platform.rect p) = 100))
  ∧ (∀ j a b, generated st !! j = Some a → generated st !! S j = Some b →
       Rect.y (Platform.rect b) ≤ Rect.y (Platform.rect a)).
Proof.
  intros H. apply (repeat_n_seeded _ 0) in H; [|exact seeded_start].
  destruct H as (_ & Hlen & Hhi & Hph & Hys & Hord).
  change (0 + num_platforms)%nat with 13%nat in *.
  split; [exact Hlen|]. split; [lia|]. split; [|exact Hord].
  intros j p Hp. destruct (Hys j p Hp). split; lia.
Qed.

End Heights.

Lemma generated_platform_shape_witness :
  ∃ st, Main.generate [(1.09%float, 3)] late_tape = Some (st, [])
    ∧ ∀ p, p ∈ Main.generated st →
        0 ≤ Rect.left (Platform.rect p) ≤ 904 ∧ Rect.w (Platform.rect p) = 220.
Proof.
  destruct (Main.generate [(1.09%float, 3)] late_tape) as [[st rest]|] eqn:E;
    [|vm_compute in E; discriminate E].
  assert (Hrest : rest = []) by (vm_compute in E; by injection E as _ <-).
  subst rest. exists st. split; [reflexivity|]. intros p Hp.
  destruct (generated_platform_shape _ _ _ _ E p Hp) as (Hx & _ & Hw & _).
  exact (conj Hx Hw).
Defined.

Lemma orbs_on_safe_platforms_witness :
  ∃ st, Main.generate [(1.09%float, 3)] late_tape = Some (st, [])
    ∧ (length (Main.orbs st) ≤ length (Main.generated st))%nat.
Proof.
  destruct (Main.generate [(1.09%float, 3)] late_tape) as [[st rest]|] eqn:E;
    [|vm_compute in E; discriminate E].
  assert (Hrest : rest = []) by (vm_compute in E; by injection E as _ <-).
  subst rest. exists st. split; [reflexivity|].
  exact (proj2 (orbs_on_safe_platforms _ _ _ _ E)).
Defined.

Lemma seeded_heights_witness :
  ∃ st, Main.seed seed_tape = Some (st, [])
    ∧ (λ p, Rect.y (Platform.rect p)) <$> Main.generated st
      = [488; 408; 328; 248; 168; 100; 100; 100; 100; 100; 100; 100; 100]
    ∧ Main.highest_platform_y st = 100.
Proof.
  destruct (Main.seed seed_tape) as [[st rest]|] eqn:E;
    [|vm_compute in E; discriminate E].
  assert (Hrest : rest = []) by (vm_compute in E; by injection E as _ <-).
  subst rest. exists st. split; [reflexivity|].
  split; [|exact (proj1 (proj2 (seeded_heights _ _ _ E)))].
  vm_compute in E. injection E as <-. vm_compute. reflexivity.
Defined.

(** ** The stored high score at the end of a run *)

(** X18.  At the end of a run the high score kept in memory is the larger of the
    score and the high score loaded at its start.  What the next load finds
    depends on the write: that maximum if it works; the old high score if the
    open fails; and 0 if the dump fails on a new record, the old file having
    been truncated. *)
Theorem high_score_after_run io score high_score f :
  load_high_score ReadWorks f = Return (PyInt high_score) →
  (Game.record_high_score io score high_score f).1 = Z.max score high_score
  ∧ load_high_score ReadWorks (Game.record_high_score io score high_score f).2
    = Return (PyInt match io with
                    | WriteWorks => Z.max score high_score
                    | OpenFails => high_score
                    | DumpFails => if high_score <? score then 0 else high_score
                    end).
Proof.
  intros Hl. unfold Game.record_high_score.
  destruct (Z.ltb_spec high_score score) as [Hlt|Hge]; cbn [fst snd].
  - split; [lia|]. destruct io; cbn [save_high_score json_dump fst].
    + rewrite Z.max_l by lia. reflexivity.
    + exact Hl.
    + reflexivity.
  - split; [lia|]. rewrite Hl. destruct io; [by rewrite Z.max_r by lia|done|done].
Qed.

Lemma high_score_after_run_witness :
  load_high_score ReadWorks (save_high_score WriteWorks 30 None).1 = Return (PyInt 30)
  ∧ (Game.record_high_score DumpFails 42 30 (save_high_score WriteWorks 30 None).1).1 = 42
  ∧ load_high_score ReadWorks
      (Game.record_high_score DumpFails 42 30 (save_high_score WriteWorks 30 None).1).2
    = Return (PyInt 0).
Proof.
  split; [reflexivity|].
  exact (high_score_after_run DumpFails 42 30 (save_high_score WriteWorks 30 None).1 eq_refl).
Defined.

(** ** The menus *)

Section Menus.
Context {A : Type} (decide : event → option A).

Lemma menu_flat frames : menu decide frames = first_decision decide (mjoin frames).
Proof.
  induction frames as [|events frames IH]; [done|]. simpl. rewrite IH.
  induction events as [|e events IHe]; [done|]. simpl.
  by destruct (decide e).
Qed.

Lemma first_decision_Some events a :
  first_decision decide events = Some a ↔
  ∃ before e after,
    events = before ++ e :: after ∧ Forall (λ e, decide e = None) before
    ∧ decide e = Some a.
Proof.
  induction events as [|e events IH]; simpl.
  - split; [done|]. intros (before & e & after & H & _). by destruct before.
  - destruct (decide e) as [b|] eqn:Hd.
    + split.
      * intros [= ->]. by exists [], e, events.
      * intros (before & e' & after & H & Hb & He). destruct before as [|x before].
        -- injection H as -> ->. congruence.
        -- injection H as -> ->. apply Forall_cons in Hb as [Hx _]. congruence.
    + rewrite IH. split.
      * intros (before & e' & after & -> & Hb & He).
        exists (e :: before), e', after. repeat split; [|done]. by constructor.
      * intros (before & e' & after & H & Hb & He). destruct before as [|x before].
        -- injection H as -> ->. congruence.
        -- injection H as -> ->. apply Forall_cons in Hb as [_ Hb].
           by exists before, e', after.
Qed.

End Menus.

Lemma game_over_event_idle e : game_over_event e = None ↔ idle_game_over e.
Proof.
  unfold idle_game_over. destruct e as [|key|]; simpl; [by intuition| |by intuition].
  destruct (Z.eqb_spec key K_r) as [->|Hr]; [by intuition|].
  destruct (Z.eqb_spec key K_ESCAPE) as [->|He]; [by intuition|].
  destruct (Z.eqb_spec key K_q) as [->|Hq]; [by intuition|].
  simpl. split; [|done]. intros _. repeat split; congruence.
Qed.

Lemma start_event_idle e : start_event e = None ↔ idle_start e.
Proof.
  unfold idle_start. destruct e as [|key|]; simpl; [by intuition| |by intuition].
  destruct (Z.eqb_spec key K_RETURN) as [->|Hr]; [by intuition|].
  destruct (Z.eqb_spec key K_SPACE) as [->|Hs]; [by intuition|].
  destruct (Z.eqb_spec key K_ESCAPE) as [->|He]; [by intuition|].
  destruct (Z.eqb_spec key K_q) as [->|Hq]; [by intuition|].
  simpl. split; [|done]. intros _. repeat split; congruence.
Qed.

Lemma pause_event_idle e : pause_event e = None ↔ idle_pause e.
Proof.
  unfold idle_pause. destruct e as [|key|]; simpl; [by intuition| |by intuition].
  destruct (Z.eqb_spec key K_ESCAPE) as [->|He]; [by intuition|].
  destruct (Z.eqb_spec key K_r) as [->|Hr]; [by intuition|].
  destruct (Z.eqb_spec key K_q) as [->|Hq]; [by intuition|].
  split; [|done]. intros _. repeat split; congruence.
Qed.

Lemma menu_Some {A} (decide : event → option A) (idle : event → Prop) frames a :
  (∀ e, decide e = None ↔ idle e) →
  menu decide frames = Some a ↔
  ∃ before e after, polled frames before e after ∧ Forall idle before ∧ decide e = Some a.
Proof.
  intros Hidle. rewrite menu_flat, first_decision_Some. unfold polled.
  split; intros (before & e & after & H & Hb & He); exists before, e, after;
    (split; [exact H|]; split; [|exact He]);
    (eapply Forall_impl; [exact Hb|]; intros x Hx; by apply Hidle).
Qed.

(** X19.  The game-over screen answers with the first event, over all frames
    polled, that is a window close or a press of R, ESC or Q, whatever came
    before: True for R, False for the other three.  Here ESC quits. *)
Theorem game_over_screen_answer frames retry :
  show_game_over_screen frames = Some retry ↔
  ∃ before e after,
    polled frames before e after ∧ Forall idle_game_over before
    ∧ (if retry then e = KEYDOWN K_r
       else e = QUIT ∨ e = KEYDOWN K_ESCAPE ∨ e = KEYDOWN K_q).
Proof.
  unfold show_game_over_screen. rewrite (menu_Some _ _ _ _ game_over_event_idle).
  split; intros (before & e & after & H & Hb & He); exists before, e, after;
    (split; [exact H|]; split; [exact Hb|]).
  - destruct e as [|key|]; simpl in He; [injection He as <-; auto| |done].
    destruct (Z.eqb_spec key K_r) as [->|Hr]; [by injection He as <-|].
    destruct (Z.eqb_spec key K_ESCAPE) as [->|Hesc]; [injection He as <-; auto|].
    destruct (Z.eqb_spec key K_q) as [->|Hq]; [injection He as <-; auto|done].
  - destruct retry; [by subst e|]. by destruct He as [->|[->| ->]].
Qed.

(** X20.  The start screen answers with the first event that is a window close or
    a press of ENTER, SPACE, ESC or Q: True for ENTER and SPACE, False for the
    others. *)
Theorem start_screen_answer frames start :
  show_start_screen frames = Some start ↔
  ∃ before e after,
    polled frames before e after ∧ Forall idle_start before
    ∧ (if start then e = KEYDOWN K_RETURN ∨ e = KEYDOWN K_SPACE
       else e = QUIT ∨ e = KEYDOWN K_ESCAPE ∨ e = KEYDOWN K_q).
Proof.
  unfold show_start_screen. rewrite (menu_Some _ _ _ _ start_event_idle).
  split; intros (before & e & after & H & Hb & He); exists before, e, after;
    (split; [exact H|]; split; [exact Hb|]).
  - destruct e as [|key|]; simpl in He; [injection He as <-; auto| |done].
    destruct (Z.eqb_spec key K_RETURN) as [->|Hr]; [injection He as <-; auto|].
    destruct (Z.eqb_spec key K_SPACE) as [->|Hs]; [injection He as <-; auto|].
    destruct (Z.eqb_spec key K_ESCAPE) as [->|Hesc]; [injection He as <-; auto|].
    destruct (Z.eqb_spec key K_q) as [->|Hq]; [injection He as <-; auto|done].
  - destruct start; [by destruct He as [->| ->]|]. by destruct He as [->|[->| ->]].
Qed.

(** X21.  The pause menu answers with the first event that is a window close or a
    press of ESC, R or Q: resume for ESC, restart for R, quit for Q and for
    the window close.  Here ESC resumes. *)
Theorem pause_menu_answer frames action :
  show_pause_menu frames = Some action ↔
  ∃ before e after,
    polled frames before e after ∧ Forall idle_pause before
    ∧ match action with
      | resume => e = KEYDOWN K_ESCAPE
      | restart => e = KEYDOWN K_r
      | quit => e = QUIT ∨ e = KEYDOWN K_q
      end.
Proof.
  unfold show_pause_menu. rewrite (menu_Some _ _ _ _ pause_event_idle).
  split; intros (before & e & after & H & Hb & He); exists before, e, after;
    (split; [exact H|]; split; [exact Hb|]).
  - destruct e as [|key|]; simpl in He; [injection He as <-; auto| |done].
    destruct (Z.eqb_spec key K_ESCAPE) as [->|Hesc]; [by injection He as <-|].
    destruct (Z.eqb_spec key K_r) as [->|Hr]; [by injection He as <-|].
    destruct (Z.eqb_spec key K_q) as [->|Hq]; [injection He as <-; auto|done].
  - destruct action; [by subst e | by subst e | by destruct He as [->| ->]].
Qed.

(** ** The end of the frame on sample states *)

Lemma broken_platform_removed_witness :
  Game.prune_platforms 0
    (Player.update falling [far_platform; brittle_platform] 1%float 1%float).1.2
  = [far_platform].
Proof.
  rewrite (broken_platform_removed falling [far_platform; brittle_platform]
             1%float 1%float 1%nat brittle_platform 0).
  - vm_compute. reflexivity.
  - vm_compute. eexists. reflexivity.
  - vm_compute; reflexivity.
  - split; [reflexivity|]. split.
    + split; [vm_compute; reflexivity | vm_compute; discriminate].
    + intros j q Hj Hq. destruct j as [|j]; [|lia]. injection Hq as <-.
      intros [Hc _]. vm_compute in Hc. discriminate Hc.
  - reflexivity.
  - repeat constructor.
Defined.

Lemma orb_pickup_witness :
  (Game.collect_orbs (Player.new 500 408)
     [orb_at_player; orb_elsewhere; shield_at_player]).2 = [orb_elsewhere]
  ∧ Player.shield_active
      (Game.collect_orbs (Player.new 500 408)
         [orb_at_player; orb_elsewhere; shield_at_player]).1 = true
  ∧ Player.active_upgrades
      (Game.collect_orbs (Player.new 500 408)
         [orb_at_player; orb_elsewhere; shield_at_player]).1 !! "Jump Boost"%string
    = Some 900.
Proof.
  assert (Hl : Forall listed [orb_at_player; orb_elsewhere; shield_at_player]).
  { repeat constructor. }
  destruct (orb_pickup (Player.new 500 408) _ Hl) as (Ho & _ & _ & Hs & Hu).
  split; [rewrite Ho; vm_compute; reflexivity|].
  split; [rewrite Hs; vm_compute; reflexivity|].
  rewrite Hu. vm_compute. reflexivity.
Defined.

Lemma frame_leaves_no_marked_platform_witness :
  ∃ w rest w',
    Game.new_run early_tape = Some (w, rest)
    ∧ Game.tick (held false true) w rest = Some (w', false, [])
    ∧ length (Main.platforms (Game.gen w')) = 19%nat
    ∧ Forall (λ p, Platform.will_break p = false) (Main.platforms (Game.gen w')).
Proof.
  destruct (Game.new_run early_tape) as [[w rest]|] eqn:E;
    [|vm_compute in E; discriminate E].
  destruct (Game.tick (held false true) w rest) as [[[w' over] rest']|] eqn:T;
    [|vm_compute in E; injection E as <- <-; vm_compute in T; discriminate T].
  pose proof (frame_leaves_no_marked_platform _ _ _ _ _ _ T) as Hclean.
  assert (Ho : over = false ∧ rest' = []
               ∧ length (Main.platforms (Game.gen w')) = 19%nat).
  { vm_compute in E. injection E as <- <-. vm_compute in T. injection T as <- <- <-.
    repeat split. }
  destruct Ho as (-> & -> & Hlen).
  exists w, rest, w'. split; [reflexivity|]. split; [exact T|]. split; [exact Hlen|].
  eapply Forall_impl; [exact Hclean|]. intros p [Hp _]. exact Hp.
Defined.

Lemma height_record_witness :
  ∃ w rest w',
    Game.new_run early_tape = Some (w, rest)
    ∧ Game.tick (held false true) w rest = Some (w', false, [])
    ∧ Game.highest_player_y w' = 384
    ∧ Game.current_difficulty w' = 0.
Proof.
  destruct (Game.new_run early_tape) as [[w rest]|] eqn:E;
    [|vm_compute in E; discriminate E].
  destruct (Game.tick (held false true) w rest) as [[[w' over] rest']|] eqn:T;
    [|vm_compute in E; injection E as <- <-; vm_compute in T; discriminate T].
  destruct (height_record _ _ _ _ _ _ T) as (_ & Hh & _ & Hl).
  assert (Ho : over = false ∧ rest' = []
               ∧ Z.min (Game.highest_player_y w) (Rect.y (Player.rect (Game.player w'))) = 384
               ∧ Game.score w / 500 = 0).
  { vm_compute in E. injection E as <- <-. vm_compute in T. injection T as <- <- <-.
    repeat split. }
  destruct Ho as (-> & -> & Hm & Hz).
  exists w, rest, w'. split; [reflexivity|]. split; [exact T|].
  split; [exact (eq_trans Hh Hm) | exact (eq_trans Hl Hz)].
Defined.
